(** * nlp_profiler: the lexical counters, slab classifiers and summarisers
      of [nlp_profiler/core.py], embedded in Rocq.

    Conventions of the embedding.
    - A Python [str] is a [string]; a character stands for the code point
      with the same number (so the texts covered are those whose code
      points are below 256).
    - A Python [float] is a binary64 [float] of the kernel, a Python [int]
      is a [Z], a [len] is a [nat].
    - A function that can raise returns a [result]; a function that can
      fall off its end without [return] returns an [option] ([None]); a
      classifier can do both.
    - The collaborators the module imports (the tokenizer, the spell
      checker, the sentiment analyser, the grammar checker, the list of
      stop words, the emoji transliterator) are section variables. *)

From Stdlib Require Import ZArith Floats Ascii String.
From stdpp Require Import gmap strings list pretty sorting.

Local Open Scope string_scope.
Local Open Scope list_scope.

(** ** Characters and strings *)

Definition ord (c : ascii) : N := N_of_ascii c.

Definition in_range (lo hi : N) (c : ascii) : bool :=
  ((lo <=? ord c) && (ord c <=? hi))%N.

(** [0-9], [A-Za-z0-9] and the word characters of [\b] and [\w]. *)
Definition is_digit (c : ascii) : bool := in_range 48 57 c.

Definition is_alpha_numeric (c : ascii) : bool :=
  in_range 65 90 c || in_range 97 122 c || is_digit c.

Definition is_word_char (c : ascii) : bool :=
  is_alpha_numeric c || (ord c =? 95)%N
  || (ord c =? 170)%N || (ord c =? 178)%N || (ord c =? 179)%N
  || (ord c =? 181)%N || (ord c =? 185)%N || (ord c =? 186)%N
  || in_range 188 190 c
  || in_range 192 214 c || in_range 216 246 c || in_range 248 255 c.

(** [str.isspace] on one character. *)
Definition is_space (c : ascii) : bool :=
  in_range 9 13 c || in_range 28 32 c || (ord c =? 133)%N || (ord c =? 160)%N.

(** [str.lower] on one character, then on a string. *)
Definition lower_char (c : ascii) : ascii :=
  if in_range 65 90 c || in_range 192 214 c || in_range 216 222 c
  then ascii_of_N (ord c + 32)
  else c.

Fixpoint lower (s : string) : string :=
  match s with
  | EmptyString => EmptyString
  | String c r => String (lower_char c) (lower r)
  end.

(** [needle in hay] on strings: [needle] occurs as a substring. *)
Fixpoint str_in (needle hay : string) : bool :=
  String.prefix needle hay ||
  match hay with
  | EmptyString => false
  | String _ r => str_in needle r
  end.

(** [str.strip] without argument. *)
Fixpoint lstrip (s : string) : string :=
  match s with
  | EmptyString => EmptyString
  | String c r => if is_space c then lstrip r else s
  end.

Fixpoint rstrip (s : string) : string :=
  match s with
  | EmptyString => EmptyString
  | String c r =>
      match rstrip r with
      | EmptyString => if is_space c then EmptyString else String c EmptyString
      | r' => String c r'
      end
  end.

Definition strip (s : string) : string := rstrip (lstrip s).

(** ** Exceptions *)

Inductive exn : Type :=
  | ZeroDivisionError
  | KeyError (key : string)
  | OverflowError.

Inductive result (A : Type) : Type :=
  | Ok (a : A)
  | Raise (e : exn).

Arguments Ok {A} a.
Arguments Raise {A} e.

(** The error monad, with stdpp's notations [x ← r; k] and [f <$> r]. *)
#[global] Instance result_ret : MRet result := @Ok.

#[global] Instance result_bind : MBind result := λ A B k r,
  match r with
  | Ok a => k a
  | Raise e => Raise e
  end.

#[global] Instance result_fmap : FMap result := λ A B f r,
  match r with
  | Ok a => Ok (f a)
  | Raise e => Raise e
  end.

(** ** [re.findall]

    A pattern is given by its matcher at one position:
    [m must_advance prev s] is the first match, in the engine's
    backtracking order, of the pattern at the position whose preceding
    character is [prev] and whose remaining text is [s]; it yields what
    [findall] collects for that match (the group, the tuple of groups, or
    the whole match) and the number of characters consumed. With
    [must_advance] an empty match is not accepted.

    [scan] is the search loop: matches do not overlap, the search resumes
    where the last match ended, and right after an empty match the next
    match at the same position must consume something. [skip] counts the
    characters of the last match that are still to be stepped over. *)

Section Findall.
Context {A : Type}.
Variable m : bool -> option ascii -> string -> option (A * nat).

Fixpoint scan (skip : nat) (prev : option ascii) (s : string) : list A :=
  match skip, s with
  | S k, String c r => scan k (Some c) r
  | S _, EmptyString => []
  | O, _ =>
      match m false prev s with
      | None =>
          match s with
          | String c r => scan 0 (Some c) r
          | EmptyString => []
          end
      | Some (a, S n) =>
          a :: match s with
               | String c r => scan n (Some c) r
               | EmptyString => []
               end
      | Some (a, O) =>
          a :: match m true prev s with
               | Some (a', S n') =>
                   a' :: match s with
                         | String c r => scan n' (Some c) r
                         | EmptyString => []
                         end
               | _ =>
                   match s with
                   | String c r => scan 0 (Some c) r
                   | EmptyString => []
                   end
               end
      end
  end.

Definition findall (s : string) : list A := scan 0 None s.
End Findall.

(** A pattern made of one character class: [re.findall] returns the
    matching characters, each as a string of length one. *)
Definition char_class (p : ascii -> bool)
    (must_advance : bool) (prev : option ascii) (s : string)
    : option (string * nat) :=
  match s with
  | String c _ => if p c then Some (String c EmptyString, 1) else None
  | EmptyString => None
  end.

(** ** Sentences *)

(** The longest prefix without a dot: what [[^.]*[^.]*] matches. *)
Fixpoint non_dot_run (s : string) : string :=
  match s with
  | EmptyString => EmptyString
  | String c r => if Ascii.eqb c "." then EmptyString else String c (non_dot_run r)
  end.

Definition sentence_re (must_advance : bool) (prev : option ascii) (s : string)
    : option (string * nat) :=
  let run := non_dot_run s in
  if must_advance && (String.length run =? 0)%nat then None
  else Some (run, String.length run).

(** The loop [for index, each in enumerate(lines): if each == '': del
    lines[index]]. The list is mutated while it is iterated: the iterator
    keeps its position, so [index] always is the position of [each] in the
    current list, and the loop ends when the position is past the end. *)
Fixpoint del_blank_loop (fuel index : nat) (lines : list string) : list string :=
  match fuel with
  | O => lines
  | S fuel' =>
      match lines !! index with
      | None => lines
      | Some each =>
          if String.eqb each ""
          then del_blank_loop fuel' (S index) (delete index lines)
          else del_blank_loop fuel' (S index) lines
      end
  end.

Definition gather_sentences (text : string) : list string :=
  let lines := findall sentence_re text in
  del_blank_loop (length lines) 0 lines.

Definition count_sentences (text : string) : nat :=
  length (gather_sentences text).

(** What the specification asks of the sentence count: split on the dot
    and drop every blank piece. *)
Fixpoint split_on_dot (piece : string) (s : string) : list string :=
  match s with
  | EmptyString => [piece]
  | String c r =>
      if Ascii.eqb c "." then piece :: split_on_dot "" r
      else split_on_dot (piece ++ String c "")%string r
  end.

Definition spec_sentences (text : string) : list string :=
  filter (fun piece => piece <> "") (split_on_dot "" text).

Definition spec_count_sentences (text : string) : nat :=
  length (spec_sentences text).

(** *** The deleting loop, read as a function of the list

    Deleting at the iterator's position moves the next element into that
    position, and the iterator then steps over it: the element after a
    deleted blank is never examined. *)
Fixpoint drop_blank_skipping (lines : list string) : list string :=
  match lines with
  | [] => []
  | each :: rest =>
      if String.eqb each ""
      then match rest with
           | [] => []
           | kept :: rest' => kept :: drop_blank_skipping rest'
           end
      else each :: drop_blank_skipping rest
  end.


(** ** Numbers and scores *)

(** The binary64 value nearest to an integer [n] (ties to even); it is
    infinite when [n] is too large for a float. *)
Definition float_of_Z (z : Z) : float :=
  SF2Prim (binary_normalize prec emax z 0 false).

(** [a / b] on two integers: zero divisor and zero dividend are told apart
    before any conversion, otherwise the quotient of the two floats (exact
    conversions for the sizes a count can have). *)
Definition int_truediv (a b : Z) : result float :=
  if (b =? 0)%Z then Raise ZeroDivisionError
  else if (a =? 0)%Z then Ok (if (b <? 0)%Z then (-0)%float else 0%float)
  else Ok (float_of_Z a / float_of_Z b)%float.

(** [x / y] on two floats. *)
Definition float_truediv (x y : float) : result float :=
  if (y =? 0)%float then Raise ZeroDivisionError else Ok (x / y)%float.

Inductive number : Type :=
  | Float (f : float)
  | Int (z : Z).

(** [float(score)]: a float is returned as it is; an integer is
    converted to the nearest float, and the conversion raises
    OverflowError when the integer is too large for one (its nearest
    float would be infinite). *)
Definition to_float (x : number) : result float :=
  match x with
  | Float f => Ok f
  | Int z =>
      let f := float_of_Z z in
      if PrimFloat.is_infinity f then Raise OverflowError else Ok f
  end.

(** A score is the sentinel or a number. The sentinel is the string
    [NOT_APPLICABLE]; a classifier hands it back as its label. *)
Inductive score : Type :=
  | NotApplicable
  | Number (x : number).

Definition NOT_APPLICABLE : string := "N/A".

(** ** Slab tables and classifiers *)

Definition slab : Type := string * Z * Z.

Definition sentiment_polarity_to_words_mapping : list slab :=
  [ ("Very positive", 99, 100);
    ("Quite positive", 87, 99);
    ("Pretty positive", 51, 87);
    ("Neutral", 49, 51);
    ("Pretty negative", 12, 49);
    ("Quite negative", 2, 12);
    ("Very negative", 0, 2) ]%Z.

Definition sentiment_subjectivity_to_words_mapping : list slab :=
  [ ("Very subjective", 99, 100);
    ("Quite subjective", 87, 99);
    ("Pretty subjective", 63, 87);
    ("Objective/subjective", 40, 63);
    ("Pretty objective", 12, 40);
    ("Quite objective", 2, 12);
    ("Very objective", 0, 2) ]%Z.

Definition spelling_quality_score_to_words_mapping : list slab :=
  [ ("Very good", 99, 100);
    ("Quite good", 90, 99);
    ("Good", 87, 90);
    ("Pretty good", 63, 87);
    ("Bad", 40, 63);
    ("Pretty bad", 12, 40);
    ("Quite bad", 2, 12);
    ("Very bad", 0, 2) ]%Z.

(** [(score >= each_slab[1]) and (score <= each_slab[2])] *)
Definition in_slab (score : float) (each_slab : slab) : bool :=
  let '(_, lower_bound, upper_bound) := each_slab in
  (float_of_Z lower_bound <=? score)%float && (score <=? float_of_Z upper_bound)%float.

(** The loop [for each_slab in table: if ...: return each_slab[0]]; falling
    off the end of the function gives [None]. *)
Fixpoint first_slab (table : list slab) (score : float) : option string :=
  match table with
  | [] => None
  | each_slab :: rest =>
      if in_slab score each_slab then Some each_slab.1.1
      else first_slab rest score
  end.

Definition sentiment_polarity (s : score) : result (option string) :=
  match s with
  | NotApplicable => Ok (Some NOT_APPLICABLE)
  | Number x =>
      score ← to_float x;
      let score := ((score + 1) / 2)%float in
      let score := (score * 100)%float in
      Ok (first_slab sentiment_polarity_to_words_mapping score)
  end.

Definition sentiment_subjectivity (s : score) : result (option string) :=
  match s with
  | NotApplicable => Ok (Some NOT_APPLICABLE)
  | Number x =>
      score ← to_float x;
      let score := (score * 100)%float in
      Ok (first_slab sentiment_subjectivity_to_words_mapping score)
  end.

Definition spelling_quality (s : score) : result (option string) :=
  match s with
  | NotApplicable => Ok (Some NOT_APPLICABLE)
  | Number x =>
      score ← to_float x;
      let score := (score * 100)%float in
      Ok (first_slab spelling_quality_score_to_words_mapping score)
  end.

(** ** Summarisers *)

Definition sentiment_polarity_summarised (polarity : string) : string :=
  if str_in "negative" (lower polarity) then "Negative"
  else if str_in "positive" (lower polarity) then "Positive"
  else polarity.

Definition sentiment_subjectivity_summarised (sentiment_subjectivity : string) : string :=
  if str_in "/" sentiment_subjectivity then sentiment_subjectivity
  else if str_in "subjective" (lower sentiment_subjectivity) then "Subjective"
  else "Objective".

Definition spelling_quality_summarised (spelling_quality : string) : string :=
  if str_in "good" (lower spelling_quality) then "Good"
  else "Bad".

(** ** Spelling quality *)

(** [string.punctuation] *)
Definition string_punctuation : string :=
  String "!" (String (ascii_of_N 34) "#$%&'()*+,-./:;<=>?@[\]^_`{|}~").

Section Spelling.
(** [nltk.tokenize.word_tokenize], and the first entry (best correction
    and its confidence) of [textblob.Word(w).spellcheck()]. *)
Variable word_tokenize : string -> list string.
Variable spellcheck : string -> string * float.

(** The loop over the tokens, with its two counters. *)
Fixpoint check_words (tokenized_text : list string)
    (misspelt_words_count total_words_checks : Z) : Z * Z :=
  match tokenized_text with
  | [] => (misspelt_words_count, total_words_checks)
  | each_word :: rest =>
      if negb (str_in each_word string_punctuation)
      then
        let '(_, score) := spellcheck each_word in
        let misspelt_words_count :=
          if negb (score =? 1)%float then (misspelt_words_count + 1)%Z
          else misspelt_words_count in
        check_words rest misspelt_words_count (total_words_checks + 1)%Z
      else check_words rest misspelt_words_count total_words_checks
  end.

Definition spelling_quality_score (text : string) : result score :=
  if String.eqb text "" || (String.length (strip text) =? 0)%nat
  then Ok NotApplicable
  else
    let tokenized_text := word_tokenize (lower text) in
    let '(misspelt_words_count, total_words_checks) :=
      check_words tokenized_text 0 0 in
    let num_of_sentences := Z.of_nat (count_sentences text) in
    avg_words_per_sentence ← int_truediv total_words_checks num_of_sentences;
    result ← float_truediv
               (avg_words_per_sentence - float_of_Z misspelt_words_count)%float
               avg_words_per_sentence;
    Ok (Number (if (0 <=? result)%float then Float result else Int 0)).
End Spelling.

(** ** Emojis *)

(** After the opening colon of [\:(.*?)\:]: the shortest run of characters
    other than a newline that is followed by a colon. Yields the group and
    the number of characters up to and including the closing colon. *)
Fixpoint lazy_to_colon (s : string) : option (string * nat) :=
  match s with
  | EmptyString => None
  | String c r =>
      if Ascii.eqb c ":" then Some ("", 1%nat)
      else if (ord c =? 10)%N then None
      else match lazy_to_colon r with
           | Some (name, n) => Some (String c name, S n)
           | None => None
           end
  end.

Definition emoji_re (must_advance : bool) (prev : option ascii) (s : string)
    : option (string * nat) :=
  match s with
  | EmptyString => None
  | String c r =>
      if Ascii.eqb c ":"
      then match lazy_to_colon r with
           | Some (name, n) => Some (name, S n)
           | None => None
           end
      else None
  end.

Section Emojis.
(** [emoji.demojize] *)
Variable demojize : string -> string.

Definition gather_emojis (text : string) : list string :=
  let emoji_expaned_text := demojize text in
  findall emoji_re emoji_expaned_text.

Definition count_emojis (text : string) : nat :=
  let list_of_emojis := gather_emojis text in
  length list_of_emojis.
End Emojis.

(** ** Alphanumeric and other characters *)

Definition gather_alpha_numeric (text : string) : list string :=
  findall (char_class is_alpha_numeric) text.

Definition count_alpha_numeric (text : string) : nat :=
  length (gather_alpha_numeric text).

Definition gather_non_alpha_numeric (text : string) : list string :=
  findall (char_class (fun c => negb (is_alpha_numeric c))) text.

Definition count_non_alpha_numeric (text : string) : nat :=
  length (gather_non_alpha_numeric text).

(** The [characters_count] column is [len] itself. *)
Definition characters_count (text : string) : nat := String.length text.

(** ** Dates *)

Inductive date_regex : Type := ddmmyyyy | mmddyyyy.

(** [3[01]|[12][0-9]|0[1-9]] and [1[0-2]|0[1-9]] on two characters. *)
Definition day_digits (a b : ascii) : bool :=
  ((ord a =? 51)%N && in_range 48 49 b)
  || (in_range 49 50 a && is_digit b)
  || ((ord a =? 48)%N && in_range 49 57 b).

Definition month_digits (a b : ascii) : bool :=
  ((ord a =? 49)%N && in_range 48 50 b)
  || ((ord a =? 48)%N && in_range 49 57 b).

Definition is_word (c : option ascii) : bool :=
  match c with
  | Some c => is_word_char c
  | None => false
  end.

(** [\b] between two neighbouring positions. *)
Definition word_boundary (prev next : option ascii) : bool :=
  xorb (is_word prev) (is_word next).

Definition head_char (s : string) : option ascii :=
  match s with
  | EmptyString => None
  | String c _ => Some c
  end.

Definition str2 (a b : ascii) : string := String a (String b "").

(** Both date patterns have a fixed width of ten characters and
    alternatives that exclude one another, so there is at most one match
    at a position; [findall] collects the three groups. *)
Definition date_re (re : date_regex)
    (must_advance : bool) (prev : option ascii) (s : string)
    : option ((string * string * string) * nat) :=
  match s with
  | String a (String b (String s1 (String c (String d (String s2
      (String y1 (String y2 (String y3 (String y4 rest))))))))) =>
      let first_second :=
        match re with
        | ddmmyyyy => day_digits a b && month_digits c d
        | mmddyyyy => month_digits a b && day_digits c d
        end in
      if word_boundary prev (Some a)
         && first_second
         && Ascii.eqb s1 "/" && Ascii.eqb s2 "/"
         && is_digit y1 && is_digit y2 && is_digit y3 && is_digit y4
         && word_boundary (Some y4) (head_char rest)
      then Some ((str2 a b, str2 c d,
                  String y1 (String y2 (String y3 (String y4 ""))))%string, 10%nat)
      else None
  | _ => None
  end.

Definition regex_list : gmap string date_regex :=
  {[ "dd/mm/yyyy" := ddmmyyyy; "mm/dd/yyyy" := mmddyyyy ]}.

Definition gather_dates (text : string) (date_format : string)
    : result (list (string * string * string)) :=
  match regex_list !! date_format with
  | Some re => Ok (findall (date_re re) text)
  | None => Raise (KeyError date_format)
  end.

Definition count_dates (text : string) : result nat :=
  length <$> gather_dates text "dd/mm/yyyy".

(** ** Signs of a returned number

    [x >= 0] and [x < 0] as Python evaluates them on a float or an int. *)
Definition number_ge0 (x : number) : bool :=
  match x with
  | Float f => (0 <=? f)%float
  | Int z => (0 <=? z)%Z
  end.

Definition number_lt0 (x : number) : bool :=
  match x with
  | Float f => (f <? 0)%float
  | Int z => (z <? 0)%Z
  end.

(** The label and the two bounds of a slab. *)
Definition slab_label (s : slab) : string := s.1.1.
Definition slab_lower (s : slab) : Z := s.1.2.
Definition slab_upper (s : slab) : Z := s.2.

(** ** Stand-ins for the collaborators

    Concrete functions to run the model on: a tokenizer that splits on
    spaces and sets a full stop apart from the word before it, spell
    checkers with a fixed verdict, and a transliterator for texts without
    emoji glyphs. *)

Fixpoint split_tokens (token : string) (s : string) : list string :=
  let flush := if String.eqb token "" then [] else [token] in
  match s with
  | EmptyString => flush
  | String c r =>
      if Ascii.eqb c " " then flush ++ split_tokens "" r
      else if Ascii.eqb c "." then flush ++ "." :: split_tokens "" r
      else split_tokens (token ++ String c "")%string r
  end.

Definition word_tokenize_spaces (text : string) : list string :=
  split_tokens "" text.

(** Every word is known. *)
Definition spellcheck_exact (word : string) : string * float := (word, 1%float).

(** No word is known for sure. *)
Definition spellcheck_unsure (word : string) : string * float := (word, 0.5%float).

Definition demojize_plain (text : string) : string := text.


(** ** Sentiment scores *)

Section Sentiment.
(** [TextBlob(text).sentiment.polarity] and [.subjectivity]. *)
Variable textblob_polarity : string -> float.
Variable textblob_subjectivity : string -> float.

Definition sentiment_polarity_score (text : string) : score :=
  if String.eqb text "" || (String.length (strip text) =? 0)%nat
  then NotApplicable
  else Number (Float (textblob_polarity text)).

Definition sentiment_subjectivity_score (text : string) : score :=
  if String.eqb text "" || (String.length (strip text) =? 0)%nat
  then NotApplicable
  else Number (Float (textblob_subjectivity text)).
End Sentiment.

(** ** Grammar check *)

Section Grammar.
(** [language_tool_python.LanguageTool('en-GB').check], returning the
    list of its matches. *)
Context {Match : Type}.
Variable tool_check : string -> list Match.

Definition grammar_check_score (text : string) : nat :=
  let matches := tool_check text in
  length matches.
End Grammar.

(** The f-string writes the score in decimal. *)
Definition grammar_quality (score : Z) : string :=
  if (score =? 1)%Z then "1 issue"
  else if (1 <? score)%Z then (pretty score ++ " issues")%string
  else "No issues".

(** ** Runs of characters *)

(** The longest prefix whose characters are all in the class [p], and
    what follows it. *)
Fixpoint class_run (p : ascii -> bool) (s : string) : string :=
  match s with
  | EmptyString => EmptyString
  | String c r => if p c then String c (class_run p r) else EmptyString
  end.

Fixpoint after_run (p : ascii -> bool) (s : string) : string :=
  match s with
  | EmptyString => EmptyString
  | String c r => if p c then after_run p r else s
  end.

Fixpoint last_char (s : string) : option ascii :=
  match s with
  | EmptyString => None
  | String c r =>
      match r with
      | EmptyString => Some c
      | _ => last_char r
      end
  end.

(** ** Whole numbers *)

(** [[0-9]+] *)
Definition whole_number_re (must_advance : bool) (prev : option ascii) (s : string)
    : option (string * nat) :=
  let run := class_run is_digit s in
  match String.length run with
  | O => None
  | n => Some (run, n)
  end.

Definition gather_whole_numbers (text : string) : list string :=
  let line := findall whole_number_re text in
  line.

Definition count_whole_numbers (text : string) : nat :=
  let list_of_numbers := gather_whole_numbers text in
  length list_of_numbers.

(** ** Punctuations *)

(** The characters of the class in the pattern of [gather_punctuations]. *)
Definition punctuation_class : string :=
  String "!" (String (ascii_of_N 34) "$%&'()*+,-./:;=#@?[\]^_`{|}~").

Definition is_punctuation (c : ascii) : bool :=
  existsb (Ascii.eqb c) (list_ascii_of_string punctuation_class).

(** The class under a star: the longest run, which may be empty. *)
Definition punctuation_re (must_advance : bool) (prev : option ascii) (s : string)
    : option (string * nat) :=
  let run := class_run is_punctuation s in
  if must_advance && (String.length run =? 0)%nat then None
  else Some (run, String.length run).

(** [list(string)]: the characters, each as a string of length one. *)
Definition list_of_string (s : string) : list string :=
  map (fun c => String c EmptyString) (list_ascii_of_string s).

Definition gather_punctuations (text : string) : list string :=
  let line := findall punctuation_re text in
  let string := String.concat "" line in
  list_of_string string.

Definition count_punctuations (text : string) : nat :=
  length (gather_punctuations text).

(** ** Stop words *)

Section StopWords.
Variable word_tokenize : string -> list string.
(** [set(stopwords.words('english'))] *)
Variable STOP_WORDS : gset string.

Definition gather_stop_words (text : string) : list string :=
  let word_tokens := word_tokenize text in
  let found_stop_words := filter (fun word => word ∈ STOP_WORDS) word_tokens in
  found_stop_words.

Definition count_stop_words (text : string) : nat :=
  length (gather_stop_words text).
End StopWords.

(** ** Words *)

(** [[^\d\W]]: a word character that is not a digit. *)
Definition is_word_letter (c : ascii) : bool :=
  is_word_char c && negb (is_digit c).

(** [\b[^\d\W]+\b]. The run is taken as long as it goes; when no word
    boundary follows it, no shorter run helps, since inside the run both
    neighbours are word characters. *)
Definition words_re (must_advance : bool) (prev : option ascii) (s : string)
    : option (string * nat) :=
  if word_boundary prev (head_char s)
  then
    let run := class_run is_word_letter s in
    match String.length run with
    | O => None
    | n =>
        if word_boundary (last_char run) (head_char (after_run is_word_letter s))
        then Some (run, n)
        else None
    end
  else None.

Definition gather_words (text : string) : list string :=
  findall words_re text.

Definition words_count (text : string) : nat :=
  length (gather_words text).

(** ** Spaces *)

Definition count_spaces (text : string) : nat :=
  let spaces := findall (char_class (fun c => Ascii.eqb c " ")) text in
  length spaces.

Definition count_characters_excluding_spaces (text : string) : Z :=
  Z.of_nat (String.length text) - Z.of_nat (count_spaces text).

(** ** Duplicates *)

(** [itertools.groupby] without a key function: the runs of equal
    neighbours, each with its value. *)
Fixpoint groupby (l : list string) : list (string * list string) :=
  match l with
  | [] => []
  | x :: r =>
      match groupby r with
      | (value, group) :: groups =>
          if String.eqb x value then (value, x :: group) :: groups
          else (x, [x]) :: (value, group) :: groups
      | [] => [(x, [x])]
      end
  end.

(** The order of [str]: by code points, a proper prefix first. *)
Definition str_le (s1 s2 : string) : Prop := String.leb s1 s2 = true.

#[global] Instance str_le_dec (s1 s2 : string) : Decision (str_le s1 s2).
Proof. unfold str_le. apply _. Defined.

Definition sorted (l : list string) : list string := merge_sort str_le l.

(** The loop over the groups, updating the dictionary. *)
Fixpoint update_duplicates (groups : list (string * list string))
    (duplicates : gmap string nat) : gmap string nat :=
  match groups with
  | [] => duplicates
  | (value, group) :: rest =>
      let frequency := length group in
      if (1 <? frequency)%nat
      then update_duplicates rest (<[value := frequency]> duplicates)
      else update_duplicates rest duplicates
  end.

Section Duplicates.
Variable word_tokenize : string -> list string.

Definition gather_duplicates (text : string) : gmap string nat :=
  let tokenized_text := word_tokenize (lower text) in
  let sorted_tokenized_text := sorted tokenized_text in
  update_duplicates (groupby sorted_tokenized_text) ∅.

Definition count_duplicates (text : string) : nat :=
  size (gather_duplicates text).
End Duplicates.

(** ** Tables whose slabs follow one another

    [chained top table]: the first slab ends at [top] and every slab ends
    where the one before begins; [bottom top table] is where the last slab
    begins. The three tables of the module are of this kind. *)
Fixpoint chained (top : Z) (table : list slab) : bool :=
  match table with
  | [] => true
  | (_, lower_bound, upper_bound) :: rest =>
      (upper_bound =? top)%Z
      && (float_of_Z lower_bound <=? float_of_Z upper_bound)%float
      && chained lower_bound rest
  end.

Fixpoint bottom (top : Z) (table : list slab) : Z :=
  match table with
  | [] => top
  | (_, lower_bound, _) :: rest => bottom lower_bound rest
  end.

(** ** Characters of a class

    [keep p s]: the characters of [s] that are in the class [p], in their
    order; [all_in p s]: every character of [s] is in the class. *)
Fixpoint keep (p : ascii -> bool) (s : string) : string :=
  match s with
  | EmptyString => EmptyString
  | String c r => if p c then String c (keep p r) else keep p r
  end.

Fixpoint all_in (p : ascii -> bool) (s : string) : bool :=
  match s with
  | EmptyString => true
  | String c r => p c && all_in p r
  end.

(** ** Reading digits

    The number a string of decimal digits stands for. *)
Definition digit_value (c : ascii) : N := (ord c - 48)%N.

Fixpoint decimal_go (acc : N) (s : string) : N :=
  match s with
  | EmptyString => acc
  | String c r => decimal_go (10 * acc + digit_value c)%N r
  end.

Definition decimal (s : string) : N := decimal_go 0 s.

(** The three groups of a date, read as day, month and year. *)
Definition valid_date (day month year : string) : Prop :=
  String.length day = 2%nat /\ String.length month = 2%nat
  /\ String.length year = 4%nat
  /\ all_in is_digit day = true /\ all_in is_digit month = true
  /\ all_in is_digit year = true
  /\ (1 <= decimal day <= 31)%N /\ (1 <= decimal month <= 12)%N.

(** [drop n s] on strings. *)
Fixpoint string_drop (n : nat) (s : string) : string :=
  match n, s with
  | S k, String _ r => string_drop k r
  | _, _ => s
  end.

(** ** Small predicates used in the statements *)

(** A piece of text that is not blank. *)
Definition not_blank (piece : string) : Prop := piece <> "".

#[global] Instance not_blank_dec (piece : string) : Decision (not_blank piece).
Proof. unfold not_blank. apply _. Defined.

(** The colon, and the characters an emoji name can have: any but the
    colon and the newline. *)
Definition is_colon (c : ascii) : bool := Ascii.eqb c ":".

Definition in_name (c : ascii) : bool := negb (is_colon c) && negb (ord c =? 10)%N.

(** How often a token occurs in a list of tokens. *)
Definition occurrences (w : string) (tokens : list string) : nat :=
  length (filter (fun token => token = w) tokens).
(** * Properties

    ** Strings *)

Lemma string_app_cons (c : ascii) (s t : string) :
  (String c s ++ t)%string = String c (s ++ t)%string.
Proof. reflexivity. Qed.

Lemma string_app_empty_r (s : string) : (s ++ "")%string = s.
Proof.
  induction s as [|c s IH]; [done|]. by rewrite string_app_cons, IH.
Qed.

Lemma string_app_assoc (s t u : string) :
  ((s ++ t) ++ u)%string = (s ++ (t ++ u))%string.
Proof.
  induction s as [|c s IH]; [done|]. by rewrite !string_app_cons, IH.
Qed.

Lemma string_length_app (t u : string) :
  String.length (t ++ u)%string = (String.length t + String.length u)%nat.
Proof.
  induction t as [|c t IH]; [done|].
  rewrite string_app_cons. cbn [String.length]. by rewrite IH.
Qed.
(** ** Sentences *)

Lemma lookup_at_length {A : Type} (pre rest : list A) :
  (pre ++ rest) !! length pre = rest !! 0.
Proof.
  rewrite lookup_app_r by lia. by replace (length pre - length pre)%nat with 0%nat by lia.
Qed.

Lemma delete_at_length {A : Type} (pre : list A) (x : A) (rest : list A) :
  delete (length pre) (pre ++ x :: rest) = pre ++ rest.
Proof. induction pre as [|y pre IH]; simpl; [done | by rewrite IH]. Qed.

(** Any fuel that covers the part of the list not yet visited is enough:
    the loop ends because the iterator runs off the list. *)
Lemma del_blank_loop_spec (fuel : nat) :
  forall pre rest : list string,
    (length rest <= fuel)%nat ->
    del_blank_loop fuel (length pre) (pre ++ rest) = pre ++ drop_blank_skipping rest.
Proof.
  induction fuel as [|fuel IH]; intros pre rest Hlen.
  - destruct rest; simpl in *; [done | lia].
  - simpl. rewrite lookup_at_length.
    destruct rest as [|each rest]; simpl; [done|].
    destruct (String.eqb each "").
    + rewrite delete_at_length.
      destruct rest as [|kept rest].
      * destruct fuel; simpl; [done|].
        rewrite lookup_ge_None_2; [done | rewrite length_app; simpl; lia].
      * replace (pre ++ kept :: rest) with ((pre ++ [kept]) ++ rest)
          by (by rewrite <- app_assoc).
        replace (S (length pre)) with (length (pre ++ [kept]))
          by (rewrite length_app; simpl; lia).
        rewrite IH by (simpl in Hlen; lia).
        by rewrite <- app_assoc.
    + replace (pre ++ each :: rest) with ((pre ++ [each]) ++ rest)
        by (by rewrite <- app_assoc).
      replace (S (length pre)) with (length (pre ++ [each]))
        by (rewrite length_app; simpl; lia).
      rewrite IH by (simpl in Hlen; lia).
      by rewrite <- app_assoc.
Qed.

Lemma gather_sentences_eq (text : string) :
  gather_sentences text = drop_blank_skipping (findall sentence_re text).
Proof.
  unfold gather_sentences. exact (del_blank_loop_spec _ [] _ (le_n _)).
Qed.

(** A match that consumes characters is collected, and the search goes
    on after it. *)
Lemma scan_match_step {A : Type} (m : bool -> option ascii -> string -> option (A * nat))
    (prev : option ascii) (c : ascii) (r : string) (a : A) (n : nat) :
  m false prev (String c r) = Some (a, S n) ->
  scan m 0 prev (String c r) = a :: scan m n (Some c) r.
Proof. intros Hm. cbn [scan]. by rewrite Hm. Qed.

(** *** Texts without a dot *)

Lemma str_in_dot_cons (c : ascii) (r : string) :
  str_in "." (String c r) = Ascii.eqb c "." || str_in "." r.
Proof.
  cbn [str_in String.prefix]. f_equal.
  destruct (ascii_dec "." c) as [<-|Hne].
  - by destruct r.
  - symmetry. apply Ascii.eqb_neq. congruence.
Qed.

Lemma non_dot_run_no_dot (s : string) :
  str_in "." s = false -> non_dot_run s = s.
Proof.
  induction s as [|c r IH]; [done|].
  rewrite str_in_dot_cons. intros [Hc Hr]%orb_false_elim.
  simpl. rewrite Hc. by rewrite IH.
Qed.

Lemma scan_sentence_skip (r : string) :
  forall prev, scan sentence_re (String.length r) prev r = [""].
Proof. induction r as [|c r IH]; intros prev; simpl; [done | apply IH]. Qed.

Lemma findall_sentence_no_dot (c : ascii) (r : string) :
  str_in "." (String c r) = false ->
  findall sentence_re (String c r) = [String c r; ""].
Proof.
  intros Hno. unfold findall.
  pose proof (non_dot_run_no_dot _ Hno) as Hrun.
  cbn [scan]. unfold sentence_re at 1. rewrite Hrun. cbn.
  by rewrite scan_sentence_skip.
Qed.

(** The two edge cases the specification singles out do hold. *)
Lemma count_sentences_empty : count_sentences "" = 0%nat.
Proof. reflexivity. Qed.

Lemma count_sentences_no_dot (text : string) :
  text <> "" -> str_in "." text = false ->
  gather_sentences text = [text] /\ count_sentences text = 1%nat.
Proof.
  intros Hne Hno. destruct text as [|c r]; [done|].
  unfold count_sentences. rewrite gather_sentences_eq, findall_sentence_no_dot by done.
  done.
Qed.

(** C2. The sentence count is meant to be the number of pieces between
    the dots with every blank piece dropped, but the loop that drops the
    blanks deletes from the list it is iterating and so steps over the
    element after each deleted one. On "a." the pattern yields a, blank,
    blank; the second blank survives and the count is 2, where one piece
    is not blank. On "." one of the two blanks survives and the count is
    1, where no piece is not blank. *)
Theorem count_sentences_keeps_a_blank :
  findall sentence_re "a." = ["a"; ""; ""]
  /\ gather_sentences "a." = ["a"; ""]
  /\ count_sentences "a." = 2%nat
  /\ spec_count_sentences "a." = 1%nat
  /\ gather_sentences "." = [""]
  /\ count_sentences "." = 1%nat
  /\ spec_count_sentences "." = 0%nat.
Proof. by vm_compute. Qed.

(** The same happens on every one-sentence text that ends in its full
    stop: the blank after the dot is stepped over and counted. *)
Lemma scan_sentence_trailing_dot (r : string) :
  forall prev, scan sentence_re (String.length r) prev (r ++ ".")%string = [""; ""].
Proof. induction r as [|c r IH]; intros prev; [done | apply IH]. Qed.

Lemma non_dot_run_app_dot (t : string) :
  str_in "." t = false -> non_dot_run (t ++ ".")%string = t.
Proof.
  induction t as [|c t IH]; [done|].
  rewrite str_in_dot_cons. intros [Hc Ht]%orb_false_elim.
  change (String c t ++ ".")%string with (String c (t ++ ".")%string).
  cbn [non_dot_run]. rewrite Hc. by rewrite IH.
Qed.

Lemma split_on_dot_app_dot (t : string) :
  forall piece,
    str_in "." t = false ->
    split_on_dot piece (t ++ ".")%string = [(piece ++ t)%string; ""].
Proof.
  induction t as [|c t IH]; intros piece.
  - intros _. cbn. by rewrite string_app_empty_r.
  - rewrite str_in_dot_cons. intros [Hc Ht]%orb_false_elim.
    change (String c t ++ ".")%string with (String c (t ++ ".")%string).
    cbn [split_on_dot]. rewrite Hc, IH by done.
    by rewrite string_app_assoc.
Qed.

Lemma count_sentences_trailing_dot (t : string) :
  t <> "" -> str_in "." t = false ->
  gather_sentences (t ++ ".")%string = [t; ""]
  /\ count_sentences (t ++ ".")%string = 2%nat
  /\ spec_count_sentences (t ++ ".")%string = 1%nat.
Proof.
  intros Hne Hno.
  assert (findall sentence_re (t ++ ".")%string = [t; ""; ""]) as Hall.
  { destruct t as [|c r]; [done|]. unfold findall.
    rewrite string_app_cons.
    rewrite (scan_match_step sentence_re None c _ (String c r) (String.length r)).
    - by rewrite scan_sentence_trailing_dot.
    - unfold sentence_re. rewrite <- string_app_cons.
      by rewrite non_dot_run_app_dot. }
  unfold count_sentences, spec_count_sentences, spec_sentences.
  rewrite gather_sentences_eq, Hall, split_on_dot_app_dot by done.
  destruct t as [|c r]; [done|]. by cbn.
Qed.

(** ** Slab classifiers *)

(** C3. Each of the three classifiers hands the NOT_APPLICABLE sentinel
    back unchanged: the sentinel is tested first and the function returns
    before the score is normalised or any slab table is scanned. *)
Theorem classifiers_keep_not_applicable :
  sentiment_polarity NotApplicable = Ok (Some NOT_APPLICABLE)
  /\ sentiment_subjectivity NotApplicable = Ok (Some NOT_APPLICABLE)
  /\ spelling_quality NotApplicable = Ok (Some NOT_APPLICABLE).
Proof. by repeat split. Qed.

(** The scan returns the label of the first slab, in the order of the
    table, whose bounds contain the score. *)
Lemma first_slab_first_match (pre rest : list slab) (s : slab) (v : float) :
  Forall (fun e => in_slab v e = false) pre ->
  in_slab v s = true ->
  first_slab (pre ++ s :: rest) v = Some (slab_label s).
Proof.
  induction 1 as [|e pre He _ IH]; intros Hs; simpl.
  - by rewrite Hs.
  - rewrite He. by apply IH.
Qed.

Lemma first_slab_Some (table : list slab) (v : float) (label : string) :
  first_slab table v = Some label ->
  exists pre s rest,
    table = pre ++ s :: rest /\ slab_label s = label
    /\ in_slab v s = true /\ Forall (fun e => in_slab v e = false) pre.
Proof.
  induction table as [|e table IH]; simpl; [done|].
  destruct (in_slab v e) eqn:He.
  - intros [= <-]. by exists [], e, table.
  - intros (pre & s & rest & -> & Hl & Hs & Hpre)%IH.
    exists (e :: pre), s, rest. repeat split; try done. by constructor.
Qed.

(** A classifier on a number: the conversion to a float, then the scan
    of its table at the normalised score. *)
Lemma sentiment_polarity_number (x : number) (f : float) :
  to_float x = Ok f ->
  sentiment_polarity (Number x)
  = Ok (first_slab sentiment_polarity_to_words_mapping ((f + 1) / 2 * 100)%float).
Proof. intros H. unfold sentiment_polarity. by rewrite H. Qed.

Lemma sentiment_subjectivity_number (x : number) (f : float) :
  to_float x = Ok f ->
  sentiment_subjectivity (Number x)
  = Ok (first_slab sentiment_subjectivity_to_words_mapping (f * 100)%float).
Proof. intros H. unfold sentiment_subjectivity. by rewrite H. Qed.

Lemma spelling_quality_number (x : number) (f : float) :
  to_float x = Ok f ->
  spelling_quality (Number x)
  = Ok (first_slab spelling_quality_score_to_words_mapping (f * 100)%float).
Proof. intros H. unfold spelling_quality. by rewrite H. Qed.

(** C4. In each of the three tables, two neighbouring slabs share their
    boundary: the lower bound of the slab listed first is the upper bound
    of the slab listed next, so the boundary lies in both. When the score
    given to a classifier is normalised to that boundary, the classifier
    returns the label of the slab listed first, and not the label of the
    slab listed next. *)
Theorem shared_boundary_first_slab_wins
    (classifier : score -> result (option string)) (normalise : float -> float)
    (table : list slab) (i : nat) (upper lower : slab) (x : number) (f : float) :
  (classifier = sentiment_polarity
   /\ normalise = (fun score => (score + 1) / 2 * 100)%float
   /\ table = sentiment_polarity_to_words_mapping)
  \/ (classifier = sentiment_subjectivity
      /\ normalise = (fun score => score * 100)%float
      /\ table = sentiment_subjectivity_to_words_mapping)
  \/ (classifier = spelling_quality
      /\ normalise = (fun score => score * 100)%float
      /\ table = spelling_quality_score_to_words_mapping) ->
  table !! i = Some upper ->
  table !! S i = Some lower ->
  to_float x = Ok f ->
  normalise f = float_of_Z (slab_lower upper) ->
  slab_lower upper = slab_upper lower
  /\ in_slab (normalise f) upper = true
  /\ in_slab (normalise f) lower = true
  /\ classifier (Number x) = Ok (Some (slab_label upper))
  /\ classifier (Number x) <> Ok (Some (slab_label lower)).
Proof.
  intros [(-> & -> & ->) | [(-> & -> & ->) | (-> & -> & ->)]] Hupper Hlower Hf Hn.
  - rewrite (sentiment_polarity_number x f Hf).
    do 8 (destruct i as [|i];
          [ simpl in Hupper, Hlower; simplify_eq; rewrite Hn; by vm_compute | ]);
      done.
  - rewrite (sentiment_subjectivity_number x f Hf).
    do 8 (destruct i as [|i];
          [ simpl in Hupper, Hlower; simplify_eq; rewrite Hn; by vm_compute | ]);
      done.
  - rewrite (spelling_quality_number x f Hf).
    do 8 (destruct i as [|i];
          [ simpl in Hupper, Hlower; simplify_eq; rewrite Hn; by vm_compute | ]);
      done.
Qed.

(** The tie of the polarity table at 99: the score 0.98 (the binary64
    value nearest to it) is normalised to exactly 99. *)
Lemma shared_boundary_first_slab_wins_99 :
  ((0x1.f5c28f5c28f5cp-1 + 1) / 2 * 100)%float = float_of_Z 99
  /\ sentiment_polarity (Number (Float 0x1.f5c28f5c28f5cp-1))
     = Ok (Some "Very positive")
  /\ in_slab ((0x1.f5c28f5c28f5cp-1 + 1) / 2 * 100)%float ("Quite positive", 87, 99)%Z
     = true.
Proof.
  assert (((0x1.f5c28f5c28f5cp-1 + 1) / 2 * 100)%float = float_of_Z 99) as Hn
    by (vm_compute; reflexivity).
  split; [exact Hn|].
  pose proof (shared_boundary_first_slab_wins
                sentiment_polarity (fun score => (score + 1) / 2 * 100)%float
                sentiment_polarity_to_words_mapping 0
                ("Very positive", 99, 100)%Z ("Quite positive", 87, 99)%Z
                (Float 0x1.f5c28f5c28f5cp-1) 0x1.f5c28f5c28f5cp-1%float
                (or_introl (conj eq_refl (conj eq_refl eq_refl)))
                eq_refl eq_refl eq_refl Hn) as (_ & _ & Hlower & Hfirst & _).
  split; [exact Hfirst | exact Hlower].
Defined.

(** The score 0.98 is normalised to exactly 99. *)
Example sentiment_polarity_at_99 :
  ((0x1.f5c28f5c28f5cp-1 + 1) / 2 * 100)%float = 99%float
  /\ sentiment_polarity (Number (Float 0x1.f5c28f5c28f5cp-1))
     = Ok (Some "Very positive").
Proof. by vm_compute. Qed.

(** C5. The polarity scores 1.0, -1.0 and 0.0 are normalised by
    (score + 1) / 2 * 100 to 100, 0 and 50, and the ordered scan of the
    polarity table labels them Very positive, Very negative and Neutral. *)
Theorem sentiment_polarity_concrete :
  sentiment_polarity (Number (Float 1)) = Ok (Some "Very positive")
  /\ sentiment_polarity (Number (Float (-1))) = Ok (Some "Very negative")
  /\ sentiment_polarity (Number (Float 0)) = Ok (Some "Neutral")
  /\ ((1 + 1) / 2 * 100 = 100)%float
  /\ ((-1 + 1) / 2 * 100 = 0)%float
  /\ ((0 + 1) / 2 * 100 = 50)%float.
Proof. by vm_compute. Qed.

(** ** Summarisers *)

(** C8. Each summariser returns its own canonical categories unchanged:
    Positive, Negative and Neutral for the polarity summariser, Subjective
    and Objective for the subjectivity summariser, Good and Bad for the
    spelling summariser; so summarising such a category twice is the same
    as summarising it once. *)
Theorem summarisers_fix_canonical_categories :
  (sentiment_polarity_summarised "Positive" = "Positive"
   /\ sentiment_polarity_summarised "Negative" = "Negative"
   /\ sentiment_polarity_summarised "Neutral" = "Neutral")
  /\ (sentiment_subjectivity_summarised "Subjective" = "Subjective"
      /\ sentiment_subjectivity_summarised "Objective" = "Objective")
  /\ (spelling_quality_summarised "Good" = "Good"
      /\ spelling_quality_summarised "Bad" = "Bad")
  /\ (forall c, c ∈ ["Positive"; "Negative"; "Neutral"] ->
        sentiment_polarity_summarised (sentiment_polarity_summarised c)
        = sentiment_polarity_summarised c)
  /\ (forall c, c ∈ ["Subjective"; "Objective"] ->
        sentiment_subjectivity_summarised (sentiment_subjectivity_summarised c)
        = sentiment_subjectivity_summarised c)
  /\ (forall c, c ∈ ["Good"; "Bad"] ->
        spelling_quality_summarised (spelling_quality_summarised c)
        = spelling_quality_summarised c).
Proof.
  repeat split; try by vm_compute.
  all: intros c Hc; repeat (apply elem_of_cons in Hc as [-> | Hc]; [by vm_compute|]).
  all: by apply elem_of_nil in Hc.
Qed.

(** The summarisers are in fact idempotent on every label. *)
Lemma sentiment_polarity_summarised_idem (label : string) :
  sentiment_polarity_summarised (sentiment_polarity_summarised label)
  = sentiment_polarity_summarised label.
Proof.
  unfold sentiment_polarity_summarised at 2 3.
  destruct (str_in "negative" (lower label)) eqn:Hn; [by vm_compute|].
  destruct (str_in "positive" (lower label)) eqn:Hp; [by vm_compute|].
  unfold sentiment_polarity_summarised. by rewrite Hn, Hp.
Qed.

Lemma sentiment_subjectivity_summarised_idem (label : string) :
  sentiment_subjectivity_summarised (sentiment_subjectivity_summarised label)
  = sentiment_subjectivity_summarised label.
Proof.
  unfold sentiment_subjectivity_summarised at 2 3.
  destruct (str_in "/" label) eqn:Hs.
  - unfold sentiment_subjectivity_summarised. by rewrite Hs.
  - by destruct (str_in "subjective" (lower label)); vm_compute.
Qed.

Lemma spelling_quality_summarised_idem (label : string) :
  spelling_quality_summarised (spelling_quality_summarised label)
  = spelling_quality_summarised label.
Proof.
  unfold spelling_quality_summarised at 2 3.
  by destruct (str_in "good" (lower label)); vm_compute.
Qed.

(** ** Spelling quality *)

(** On binary64 floats, [0 <= f] excludes [f < 0]. *)
Lemma float_ge0_not_lt0 (f : float) :
  (0 <=? f)%float = true -> (f <? 0)%float = false.
Proof.
  rewrite leb_spec, ltb_spec.
  change (Prim2SF 0) with (S754_zero false).
  unfold SFleb, SFltb.
  destruct (Prim2SF f) as [s|s| |s m e]; simpl; try done; by destruct s.
Qed.

Lemma number_ge0_not_lt0 (x : number) :
  number_ge0 x = true -> number_lt0 x = false.
Proof.
  destruct x as [f|z]; simpl.
  - apply float_ge0_not_lt0.
  - intros H%Z.leb_le. by apply Z.ltb_ge.
Qed.

Section SpellingFacts.
Variable word_tokenize : string -> list string.
Variable spellcheck : string -> string * float.

Lemma blank_guard_false (text : string) :
  strip text <> "" ->
  String.eqb text "" || (String.length (strip text) =? 0)%nat = false.
Proof.
  intros Hne. apply orb_false_intro.
  - apply String.eqb_neq. by intros ->.
  - apply Nat.eqb_neq. by destruct (strip text).
Qed.

(** Tokens found in [string.punctuation] leave both counters alone. *)
Lemma check_words_all_punctuation (tokens : list string) (misspelt total : Z) :
  Forall (fun each_word => str_in each_word string_punctuation = true) tokens ->
  check_words spellcheck tokens misspelt total = (misspelt, total).
Proof.
  induction 1 as [|each_word rest Hin _ IH]; cbn [check_words]; [done|].
  by rewrite Hin.
Qed.

(** The number returned is either the ratio, tested non-negative, or the
    integer 0. *)
Lemma spelling_quality_score_Ok (text : string) (v : score) :
  spelling_quality_score word_tokenize spellcheck text = Ok v ->
  v = NotApplicable \/ exists x, v = Number x /\ number_ge0 x = true.
Proof.
  unfold spelling_quality_score.
  destruct (String.eqb text "" || (String.length (strip text) =? 0)%nat);
    [intros [= <-]; by left|].
  destruct (check_words _ _ _ _) as [misspelt total].
  destruct (int_truediv _ _) as [avg|e]; simpl; [|done].
  destruct (float_truediv _ _) as [r|e]; simpl; [|done].
  intros [= <-]. right.
  destruct (0 <=? r)%float eqn:Hr; eexists; split; try reflexivity; done.
Qed.
End SpellingFacts.

(** C1. A text that is not blank and whose tokens all are punctuation
    (the text "." for one) has zero words to check, so its average number
    of words per sentence is zero; the function has no guard for it and
    raises ZeroDivisionError, where NOT_APPLICABLE or zero was asked for. *)
Theorem spelling_quality_score_zero_words_raises
    (word_tokenize : string -> list string)
    (spellcheck : string -> string * float) (text : string) :
  strip text <> "" ->
  Forall (fun each_word => str_in each_word string_punctuation = true)
         (word_tokenize (lower text)) ->
  spelling_quality_score word_tokenize spellcheck text = Raise ZeroDivisionError.
Proof.
  intros Hne Hpunct. unfold spelling_quality_score.
  rewrite blank_guard_false by done.
  rewrite check_words_all_punctuation by done.
  unfold int_truediv.
  destruct (Z.of_nat (count_sentences text) =? 0)%Z; [done|].
  by destruct (Z.of_nat (count_sentences text) <? 0)%Z.
Qed.

(** The text "." under the stand-in tokenizer. *)
Lemma spelling_quality_score_zero_words_raises_dot :
  word_tokenize_spaces "." = ["."]
  /\ count_sentences "." = 1%nat
  /\ spelling_quality_score word_tokenize_spaces spellcheck_exact "."
     = Raise ZeroDivisionError.
Proof.
  split; [reflexivity|]. split; [reflexivity|].
  apply (spelling_quality_score_zero_words_raises word_tokenize_spaces spellcheck_exact ".").
  - discriminate.
  - repeat constructor.
Defined.

(** C9. Whenever the spelling computation completes, its result is the
    NOT_APPLICABLE sentinel or a number that is not negative: the ratio
    is returned only when it passes the test [result >= 0], and the
    integer 0 is returned in its place otherwise. *)
Theorem spelling_quality_score_never_negative
    (word_tokenize : string -> list string)
    (spellcheck : string -> string * float) (text : string) (v : score) :
  spelling_quality_score word_tokenize spellcheck text = Ok v ->
  v = NotApplicable
  \/ exists x, v = Number x /\ number_ge0 x = true /\ number_lt0 x = false.
Proof.
  intros [-> | (x & -> & Hx)]%spelling_quality_score_Ok; [by left|].
  right. exists x. split; [done|]. split; [done|]. by apply number_ge0_not_lt0.
Qed.

(** Six doubtful words in three sentences: the ratio is (2 - 6) / 2 and
    the integer 0 is returned. *)
Lemma spelling_quality_score_never_negative_clamped :
  spelling_quality_score word_tokenize_spaces spellcheck_unsure "teh cat. teh dog. teh end"
  = Ok (Number (Int 0))
  /\ (Number (Int 0) = NotApplicable
      \/ exists x, Number (Int 0) = Number x
                   /\ number_ge0 x = true /\ number_lt0 x = false).
Proof.
  split; [by vm_compute|].
  apply (spelling_quality_score_never_negative
           word_tokenize_spaces spellcheck_unsure "teh cat. teh dog. teh end").
  by vm_compute.
Defined.

(** ** Emojis *)

(** C10. The emoji count is the number of colon-delimited names found in
    the transliterated text, whatever put them there: the text "a :b: c"
    has no emoji glyph (the transliteration leaves it as it is), and yet
    the name b between its two colons is gathered and the count is 1. *)
Theorem count_emojis_counts_literal_colon_names (demojize : string -> string) :
  demojize "a :b: c" = "a :b: c" ->
  gather_emojis demojize "a :b: c" = ["b"]
  /\ count_emojis demojize "a :b: c" = 1%nat
  /\ (0 < count_emojis demojize "a :b: c")%nat.
Proof.
  intros Hplain. unfold count_emojis, gather_emojis. rewrite Hplain.
  by vm_compute.
Qed.

(** With the transliterator that leaves glyph-free text as it is. *)
Lemma count_emojis_counts_literal_colon_names_plain :
  demojize_plain "a :b: c" = "a :b: c"
  /\ count_emojis demojize_plain "a :b: c" = 1%nat.
Proof.
  split; [reflexivity|].
  apply (count_emojis_counts_literal_colon_names demojize_plain). reflexivity.
Defined.

(** ** Alphanumeric and other characters *)

(** A pattern of one character class looks at one character at a time. *)
Lemma scan_char_class (p : ascii -> bool) (c : ascii) (r : string)
    (prev : option ascii) :
  scan (char_class p) 0 prev (String c r)
  = (if p c then [String c ""] else []) ++ scan (char_class p) 0 (Some c) r.
Proof. cbn [scan char_class]. by destruct (p c). Qed.

Lemma scan_char_class_empty (p : ascii -> bool) (prev : option ascii) :
  scan (char_class p) 0 prev "" = [].
Proof. reflexivity. Qed.

Lemma scan_char_class_prev (p : ascii -> bool) (s : string) (prev prev' : option ascii) :
  scan (char_class p) 0 prev s = scan (char_class p) 0 prev' s.
Proof. destruct s; [done|]. by rewrite !scan_char_class. Qed.

Lemma scan_char_class_app (p : ascii -> bool) (t u : string) :
  forall prev,
    scan (char_class p) 0 prev (t ++ u)%string
    = scan (char_class p) 0 prev t ++ scan (char_class p) 0 prev u.
Proof.
  induction t as [|c t IH]; intros prev; [done|].
  change (String c t ++ u)%string with (String c (t ++ u)%string).
  rewrite !scan_char_class, IH, <- app_assoc.
  do 2 f_equal. apply scan_char_class_prev.
Qed.

Lemma scan_char_class_partition (p : ascii -> bool) (s : string) :
  forall prev,
    (length (scan (char_class p) 0 prev s)
     + length (scan (char_class (fun c => negb (p c))) 0 prev s))%nat
    = String.length s.
Proof.
  induction s as [|c r IH]; intros prev; [done|].
  rewrite !scan_char_class, !length_app.
  change (String.length (String c r)) with (S (String.length r)).
  rewrite <- (IH (Some c)).
  destruct (p c); simpl; lia.
Qed.

(** Appending text adds the counts. *)
Lemma count_alpha_numeric_app (t u : string) :
  count_alpha_numeric (t ++ u)%string
  = (count_alpha_numeric t + count_alpha_numeric u)%nat.
Proof.
  unfold count_alpha_numeric, gather_alpha_numeric, findall.
  by rewrite scan_char_class_app, length_app.
Qed.

Lemma count_non_alpha_numeric_app (t u : string) :
  count_non_alpha_numeric (t ++ u)%string
  = (count_non_alpha_numeric t + count_non_alpha_numeric u)%nat.
Proof.
  unfold count_non_alpha_numeric, gather_non_alpha_numeric, findall.
  by rewrite scan_char_class_app, length_app.
Qed.

(** C6. The characters matched by [A-Za-z0-9] and the characters matched
    by its complement partition the text: the two counts add up to the
    length of the text. Appending characters to a text does not decrease
    its character count. *)
Theorem alpha_numeric_partition_and_monotone (t u : string) :
  (count_alpha_numeric t + count_non_alpha_numeric t)%nat = characters_count t
  /\ (characters_count t <= characters_count (t ++ u)%string)%nat.
Proof.
  split.
  - apply scan_char_class_partition.
  - unfold characters_count. rewrite string_length_app. lia.
Qed.

(** ** Dates *)

(** C7. A date format other than dd/mm/yyyy and mm/dd/yyyy is not a key
    of the table of patterns: the lookup raises KeyError before any text
    is searched, so no empty result is returned. count_dates takes no
    format: it is gather_dates at dd/mm/yyyy, whose result or error it
    passes on. *)
Theorem gather_dates_unsupported_format_raises (text date_format : string) :
  date_format <> "dd/mm/yyyy" ->
  date_format <> "mm/dd/yyyy" ->
  gather_dates text date_format = Raise (KeyError date_format)
  /\ gather_dates text date_format <> Ok []
  /\ count_dates text = length <$> gather_dates text "dd/mm/yyyy".
Proof.
  intros Hdd Hmm. unfold gather_dates, regex_list.
  rewrite lookup_insert_ne by done.
  rewrite lookup_singleton_ne by done.
  done.
Qed.

(** An ISO-like format is refused; the default format is searched. *)
Lemma gather_dates_unsupported_format_raises_iso :
  gather_dates "born 31/12/1999" "yyyy-mm-dd" = Raise (KeyError "yyyy-mm-dd")
  /\ gather_dates "born 31/12/1999" "dd/mm/yyyy" = Ok [("31", "12", "1999")].
Proof.
  split.
  - apply (gather_dates_unsupported_format_raises "born 31/12/1999" "yyyy-mm-dd");
      discriminate.
  - by vm_compute.
Defined.

(** The supported formats do not raise. *)
Lemma gather_dates_supported (text : string) :
  gather_dates text "dd/mm/yyyy" = Ok (findall (date_re ddmmyyyy) text)
  /\ gather_dates text "mm/dd/yyyy" = Ok (findall (date_re mmddyyyy) text).
Proof. split; reflexivity. Qed.

Lemma count_dates_Ok (text : string) :
  count_dates text = Ok (length (findall (date_re ddmmyyyy) text)).
Proof. reflexivity. Qed.

(** ** The concrete cases of the specification *)

Example gather_dates_example :
  gather_dates "born 31/12/1999 and 02/29/2020" "dd/mm/yyyy"
  = Ok [("31", "12", "1999")].
Proof. by vm_compute. Qed.

Example summarised_examples :
  spelling_quality_summarised "Pretty good" = "Good"
  /\ spelling_quality_summarised "Pretty bad" = "Bad"
  /\ sentiment_subjectivity_summarised "Objective/subjective" = "Objective/subjective".
Proof. by vm_compute. Qed.

(** * Further properties

    ** The order of binary64 floats *)

Lemma SFleb_trans (x y z : spec_float) :
  SFleb x y = true -> SFleb y z = true -> SFleb x z = true.
Proof.
  unfold SFleb.
  destruct x as [sx|sx| |sx mx ex], y as [sy|sy| |sy my ey], z as [sz|sz| |sz mz ez];
    simpl; try discriminate; try reflexivity;
    try (destruct sx; simpl; try discriminate; try reflexivity);
    try (destruct sy; simpl; try discriminate; try reflexivity);
    try (destruct sz; simpl; try discriminate; try reflexivity).
  all: change (PosDef.Pos.compare_cont Eq) with Pos.compare.
  all: destruct (Z.compare_spec ex ey); destruct (Z.compare_spec ey ez);
       destruct (Z.compare_spec ex ez); simpl; try discriminate; try reflexivity; try lia.
  all: subst.
  all: destruct (Pos.compare_spec mx my); destruct (Pos.compare_spec my mz);
       destruct (Pos.compare_spec mx mz); simpl; try discriminate; try reflexivity; try lia.
Qed.

Lemma SFleb_total (x y : spec_float) :
  SFleb x x = true -> SFleb y y = true -> SFleb x y = true \/ SFleb y x = true.
Proof.
  unfold SFleb.
  destruct x as [sx|sx| |sx mx ex], y as [sy|sy| |sy my ey];
    simpl; try discriminate; auto;
    try (destruct sx; simpl; auto); try (destruct sy; simpl; auto).
  all: intros _ _.
  all: change (PosDef.Pos.compare_cont Eq) with Pos.compare.
  all: destruct (Z.compare_spec ex ey); destruct (Z.compare_spec ey ex); simpl; auto; try lia.
  all: destruct (Pos.compare_spec mx my); destruct (Pos.compare_spec my mx); simpl; auto; try lia.
Qed.

Lemma SFleb_refl_l (x y : spec_float) : SFleb x y = true -> SFleb x x = true.
Proof.
  unfold SFleb.
  destruct x as [sx|sx| |sx mx ex], y as [sy|sy| |sy my ey];
    simpl; try discriminate; try reflexivity; intros _;
    try (by destruct sx).
  all: change (PosDef.Pos.compare_cont Eq) with Pos.compare.
  all: rewrite Z.compare_refl, Pos.compare_refl; by destruct sx.
Qed.

Lemma SFleb_refl_r (x y : spec_float) : SFleb x y = true -> SFleb y y = true.
Proof.
  unfold SFleb.
  destruct x as [sx|sx| |sx mx ex], y as [sy|sy| |sy my ey];
    simpl; try discriminate; try reflexivity; intros _;
    try (by destruct sy).
  all: change (PosDef.Pos.compare_cont Eq) with Pos.compare.
  all: rewrite Z.compare_refl, Pos.compare_refl; by destruct sy.
Qed.

(** [a <= b] on floats is transitive, and total on the floats that are
    numbers (a float is not a number exactly when [a <= a] fails). *)
Lemma fleb_trans (a b c : float) :
  (a <=? b)%float = true -> (b <=? c)%float = true -> (a <=? c)%float = true.
Proof. rewrite !leb_spec. apply SFleb_trans. Qed.

Lemma fleb_total (a b : float) :
  (a <=? a)%float = true -> (b <=? b)%float = true ->
  (a <=? b)%float = true \/ (b <=? a)%float = true.
Proof. rewrite !leb_spec. apply SFleb_total. Qed.

Lemma fleb_refl_l (a b : float) : (a <=? b)%float = true -> (a <=? a)%float = true.
Proof. rewrite !leb_spec. apply SFleb_refl_l. Qed.

Lemma fleb_refl_r (a b : float) : (a <=? b)%float = true -> (b <=? b)%float = true.
Proof. rewrite !leb_spec. apply SFleb_refl_r. Qed.

Lemma fleb_false_ge (a b : float) :
  (a <=? a)%float = true -> (b <=? b)%float = true ->
  (a <=? b)%float = false -> (b <=? a)%float = true.
Proof. intros Ha Hb Hab. destruct (fleb_total a b Ha Hb); congruence. Qed.

(** ** Chained tables *)

Lemma first_slab_app (pre post : list slab) (v : float) :
  first_slab (pre ++ post) v
  = match first_slab pre v with
    | Some label => Some label
    | None => first_slab post v
    end.
Proof.
  induction pre as [|e pre IH]; simpl; [done|]. by destruct (in_slab v e).
Qed.

Lemma first_slab_label (table : list slab) (v : float) (label : string) :
  first_slab table v = Some label -> label ∈ map slab_label table.
Proof.
  intros (pre & s & rest & -> & <- & _)%first_slab_Some.
  rewrite map_app. apply elem_of_app. right. apply elem_of_cons. by left.
Qed.

Lemma chained_app (top : Z) (pre post : list slab) :
  chained top (pre ++ post) = chained top pre && chained (bottom top pre) post.
Proof.
  revert top. induction pre as [|[[l lo] hi] pre IH]; intros top; simpl; [done|].
  rewrite IH. by rewrite !andb_assoc.
Qed.

Lemma bottom_app (top : Z) (pre post : list slab) :
  bottom top (pre ++ post) = bottom (bottom top pre) post.
Proof.
  revert top. induction pre as [|[[l lo] hi] pre IH]; intros top; simpl; [done|].
  apply IH.
Qed.

Lemma chained_bottom_le (table : list slab) :
  forall top,
    table <> [] -> chained top table = true ->
    (float_of_Z (bottom top table) <=? float_of_Z top)%float = true.
Proof.
  induction table as [|[[l lo] hi] rest IH]; intros top Hne; [done|].
  simpl. intros [[->%Z.eqb_eq Hle]%andb_prop Hrest]%andb_prop.
  destruct rest as [|s rest']; [done|].
  eapply fleb_trans; [|exact Hle]. by apply IH.
Qed.

(** The scan of a chained table finds a slab exactly for the scores
    between its bottom and its top. *)
Lemma chained_range (table : list slab) (v : float) :
  forall top,
    table <> [] -> chained top table = true ->
    is_Some (first_slab table v)
    <-> (float_of_Z (bottom top table) <=? v)%float = true
        /\ (v <=? float_of_Z top)%float = true.
Proof.
  induction table as [|[[l lo] hi] rest IH]; intros top Hne; [done|].
  intros Hch. pose proof Hch as Hch'. simpl in Hch'.
  apply andb_prop in Hch' as [[->%Z.eqb_eq Hle]%andb_prop Hrest].
  destruct rest as [|s rest'].
  { simpl. unfold in_slab.
    destruct (float_of_Z lo <=? v)%float, (v <=? float_of_Z top)%float; simpl;
      split; try done; try (by intros [? ?]); by intros [? [=]]. }
  specialize (IH lo ltac:(done) Hrest).
  pose proof (chained_bottom_le (s :: rest') lo ltac:(done) Hrest) as Hbot.
  change (bottom top (((l, lo, top) : slab) :: s :: rest')) with (bottom lo (s :: rest')).
  change (first_slab (((l, lo, top) : slab) :: s :: rest') v)
    with (if in_slab v (l, lo, top) then Some l else first_slab (s :: rest') v).
  destruct (in_slab v (l, lo, top)) eqn:Hin.
  - unfold in_slab in Hin. apply andb_prop in Hin as [Hlo Hhi].
    split; [intros _|done]. split; [|done]. by eapply fleb_trans.
  - rewrite IH. split.
    + intros [Hb Hv]. split; [done|]. by eapply fleb_trans.
    + intros [Hb Hv]. split; [done|].
      unfold in_slab in Hin. rewrite Hv, andb_true_r in Hin.
      apply fleb_false_ge; [by eapply fleb_refl_l | by eapply fleb_refl_l | done].
Qed.

(** In a chained table split in two, the boundary between the parts
    decides which part labels the score. *)
Lemma chained_split (pre post : list slab) (top : Z) (v : float) (label : string) :
  pre <> [] -> chained top (pre ++ post) = true ->
  first_slab (pre ++ post) v = Some label ->
  if (float_of_Z (bottom top pre) <=? v)%float
  then first_slab pre v = Some label
  else first_slab pre v = None /\ first_slab post v = Some label.
Proof.
  intros Hne Hch Hl.
  pose proof Hch as Hch'. rewrite chained_app in Hch'.
  apply andb_prop in Hch' as [Hpre Hpost].
  assert ((v <=? float_of_Z top)%float = true) as Hv.
  { apply (chained_range (pre ++ post) v top); [by destruct pre | done | by eexists]. }
  rewrite first_slab_app in Hl.
  pose proof (chained_range pre v top Hne Hpre) as Hrange.
  destruct (first_slab pre v) as [l'|] eqn:Hp.
  - destruct Hrange as [[-> _] _]; [by eexists|]. congruence.
  - destruct (float_of_Z (bottom top pre) <=? v)%float eqn:Hb; [|done].
    destruct Hrange as [_ Hr]. destruct Hr as [? [=]]. done.
Qed.

(** ** Classifiers: which scores get which label *)







(** The boundary of a split table, written as a literal. *)
Lemma chained_split_labels (pre post : list slab) (top : Z) (boundary : float)
    (v : float) (label : string) :
  pre <> [] -> chained top (pre ++ post) = true ->
  float_of_Z (bottom top pre) = boundary ->
  first_slab (pre ++ post) v = Some label ->
  if (boundary <=? v)%float
  then label ∈ map slab_label pre
  else label ∈ map slab_label post /\ first_slab post v = Some label.
Proof.
  intros Hne Hch <- Hl.
  pose proof (chained_split pre post top v label Hne Hch Hl) as Hs.
  destruct (float_of_Z (bottom top pre) <=? v)%float.
  - by eapply first_slab_label.
  - destruct Hs as [_ Hpost]. split; [by eapply first_slab_label | done].
Qed.

Ltac label_cases H :=
  simpl in H;
  repeat (let Heq := fresh "Heq" in
          apply elem_of_cons in H as [Heq | H];
          [rewrite Heq; vm_compute; intuition congruence|]);
  by apply elem_of_nil in H.

(** X2. The polarity summary follows the normalised score: a label
    returned for a score of 51 or more is summarised as Positive, one
    returned for a score below 49 as Negative, and one for a score from
    49 up to, but not including, 51 stays Neutral. The boundary 51 itself
    is Positive, the boundary 49 is Neutral. *)
Theorem polarity_summary_by_range (x : number) (label : string) :
  sentiment_polarity (Number x) = Ok (Some label) ->
  exists f,
    to_float x = Ok f /\
  let score := ((f + 1) / 2 * 100)%float in
  (sentiment_polarity_summarised label = "Positive" <-> (51 <=? score)%float = true)
  /\ (sentiment_polarity_summarised label = "Neutral"
      <-> (49 <=? score)%float = true /\ (51 <=? score)%float = false)
  /\ (sentiment_polarity_summarised label = "Negative" <-> (49 <=? score)%float = false).
Proof.
  intros H. destruct (to_float x) as [f|e] eqn:Hf;
    [|unfold sentiment_polarity in H; by rewrite Hf in H].
  rewrite (sentiment_polarity_number x f Hf) in H. injection H as Hl.
  exists f. split; [done|]. cbv zeta.
  set (v := ((f + 1) / 2 * 100)%float) in *.
  assert ((49 <=? 51)%float = true) as H4951 by (by vm_compute).
  pose proof (chained_split_labels
    [("Very positive", 99, 100); ("Quite positive", 87, 99); ("Pretty positive", 51, 87)]%Z
    [("Neutral", 49, 51); ("Pretty negative", 12, 49); ("Quite negative", 2, 12);
     ("Very negative", 0, 2)]%Z
    100 51 v label ltac:(done) ltac:(by vm_compute) ltac:(by vm_compute) Hl) as Hhigh.
  destruct (51 <=? v)%float eqn:H51.
  - assert ((49 <=? v)%float = true) as H49 by (by eapply fleb_trans).
    rewrite H49. label_cases Hhigh.
  - destruct Hhigh as [_ Hrest].
    pose proof (chained_split_labels
      [("Neutral", 49, 51)]%Z
      [("Pretty negative", 12, 49); ("Quite negative", 2, 12); ("Very negative", 0, 2)]%Z
      51 49 v label ltac:(done) ltac:(by vm_compute) ltac:(by vm_compute) Hrest) as Hlow.
    destruct (49 <=? v)%float eqn:H49.
    + label_cases Hlow.
    + destruct Hlow as [Hlow _]. label_cases Hlow.
Qed.

Lemma polarity_summary_by_range_neutral :
  sentiment_polarity (Number (Float 0)) = Ok (Some "Neutral")
  /\ exists f,
       to_float (Float 0) = Ok f
       /\ (sentiment_polarity_summarised "Neutral" = "Neutral"
           <-> (49 <=? (f + 1) / 2 * 100)%float = true
               /\ (51 <=? (f + 1) / 2 * 100)%float = false).
Proof.
  assert (sentiment_polarity (Number (Float 0)) = Ok (Some "Neutral")) as H
    by (vm_compute; reflexivity).
  split; [exact H|].
  destruct (polarity_summary_by_range (Float 0) "Neutral" H) as (f & Hf & _ & Hn & _).
  exists f. split; [exact Hf | exact Hn].
Defined.

(** X3. The subjectivity summary follows the normalised score: a label
    returned for a score of 63 or more is summarised as Subjective, one
    returned for a score below 40 as Objective, and a score from 40 up
    to, but not including, 63 keeps the mixed label. *)
Theorem subjectivity_summary_by_range (x : number) (label : string) :
  sentiment_subjectivity (Number x) = Ok (Some label) ->
  exists f,
    to_float x = Ok f /\
  let score := (f * 100)%float in
  (sentiment_subjectivity_summarised label = "Subjective" <-> (63 <=? score)%float = true)
  /\ (sentiment_subjectivity_summarised label = "Objective/subjective"
      <-> (40 <=? score)%float = true /\ (63 <=? score)%float = false)
  /\ (sentiment_subjectivity_summarised label = "Objective" <-> (40 <=? score)%float = false).
Proof.
  intros H. destruct (to_float x) as [f|e] eqn:Hf;
    [|unfold sentiment_subjectivity in H; by rewrite Hf in H].
  rewrite (sentiment_subjectivity_number x f Hf) in H. injection H as Hl.
  exists f. split; [done|]. cbv zeta.
  set (v := (f * 100)%float) in *.
  assert ((40 <=? 63)%float = true) as H4063 by (by vm_compute).
  pose proof (chained_split_labels
    [("Very subjective", 99, 100); ("Quite subjective", 87, 99); ("Pretty subjective", 63, 87)]%Z
    [("Objective/subjective", 40, 63); ("Pretty objective", 12, 40);
     ("Quite objective", 2, 12); ("Very objective", 0, 2)]%Z
    100 63 v label ltac:(done) ltac:(by vm_compute) ltac:(by vm_compute) Hl) as Hhigh.
  destruct (63 <=? v)%float eqn:H63.
  - assert ((40 <=? v)%float = true) as H40 by (by eapply fleb_trans).
    rewrite H40. label_cases Hhigh.
  - destruct Hhigh as [_ Hrest].
    pose proof (chained_split_labels
      [("Objective/subjective", 40, 63)]%Z
      [("Pretty objective", 12, 40); ("Quite objective", 2, 12); ("Very objective", 0, 2)]%Z
      63 40 v label ltac:(done) ltac:(by vm_compute) ltac:(by vm_compute) Hrest) as Hlow.
    destruct (40 <=? v)%float eqn:H40.
    + label_cases Hlow.
    + destruct Hlow as [Hlow _]. label_cases Hlow.
Qed.

Lemma subjectivity_summary_by_range_mixed :
  sentiment_subjectivity (Number (Float 0.5)) = Ok (Some "Objective/subjective")
  /\ exists f,
       to_float (Float 0.5) = Ok f
       /\ (sentiment_subjectivity_summarised "Objective/subjective" = "Subjective"
           <-> (63 <=? f * 100)%float = true).
Proof.
  assert (sentiment_subjectivity (Number (Float 0.5)) = Ok (Some "Objective/subjective"))
    as H by (vm_compute; reflexivity).
  split; [exact H|].
  destruct (subjectivity_summary_by_range (Float 0.5) "Objective/subjective" H)
    as (f & Hf & Hs & _).
  exists f. split; [exact Hf | exact Hs].
Defined.

(** X4. The spelling summary follows the normalised score: a label
    returned for a score of 63 or more is summarised as Good, and one
    returned for a score below 63 as Bad. *)
Theorem spelling_summary_by_range (x : number) (label : string) :
  spelling_quality (Number x) = Ok (Some label) ->
  exists f,
    to_float x = Ok f /\
  let score := (f * 100)%float in
  (spelling_quality_summarised label = "Good" <-> (63 <=? score)%float = true)
  /\ (spelling_quality_summarised label = "Bad" <-> (63 <=? score)%float = false).
Proof.
  intros H. destruct (to_float x) as [f|e] eqn:Hf;
    [|unfold spelling_quality in H; by rewrite Hf in H].
  rewrite (spelling_quality_number x f Hf) in H. injection H as Hl.
  exists f. split; [done|]. cbv zeta.
  set (v := (f * 100)%float) in *.
  pose proof (chained_split_labels
    [("Very good", 99, 100); ("Quite good", 90, 99); ("Good", 87, 90);
     ("Pretty good", 63, 87)]%Z
    [("Bad", 40, 63); ("Pretty bad", 12, 40); ("Quite bad", 2, 12); ("Very bad", 0, 2)]%Z
    100 63 v label ltac:(done) ltac:(by vm_compute) ltac:(by vm_compute) Hl) as Hhigh.
  destruct (63 <=? v)%float eqn:H63.
  - label_cases Hhigh.
  - destruct Hhigh as [Hlow _]. label_cases Hlow.
Qed.

Lemma spelling_summary_by_range_clamped :
  spelling_quality (Number (Int 0)) = Ok (Some "Very bad")
  /\ exists f,
       to_float (Int 0) = Ok f
       /\ (spelling_quality_summarised "Very bad" = "Bad"
           <-> (63 <=? f * 100)%float = false).
Proof.
  assert (spelling_quality (Number (Int 0)) = Ok (Some "Very bad")) as H
    by (vm_compute; reflexivity).
  split; [exact H|].
  destruct (spelling_summary_by_range (Int 0) "Very bad" H) as (f & Hf & _ & Hb).
  exists f. split; [exact Hf | exact Hb].
Defined.

(** ** Blank texts *)

Lemma lstrip_all_space (s : string) : all_in is_space s = true -> lstrip s = "".
Proof.
  induction s as [|c r IH]; [done|]. cbn [all_in lstrip].
  intros [-> Hr]%andb_prop. by apply IH.
Qed.

Lemma rstrip_nonempty (c : ascii) (r : string) :
  is_space c = false -> rstrip (String c r) <> "".
Proof. intros Hc. cbn [rstrip]. rewrite Hc. by destruct (rstrip r). Qed.

Lemma strip_empty_iff (s : string) : strip s = "" <-> all_in is_space s = true.
Proof.
  split.
  - induction s as [|c r IH]; [done|]. unfold strip in *. cbn [lstrip all_in].
    destruct (is_space c) eqn:Hc; [exact IH|].
    intros H. by apply rstrip_nonempty in H.
  - intros H. unfold strip. by rewrite lstrip_all_space.
Qed.

Lemma blank_guard_iff (text : string) :
  String.eqb text "" || (String.length (strip text) =? 0)%nat = true
  <-> all_in is_space text = true.
Proof.
  rewrite <- strip_empty_iff. split.
  - intros [->%String.eqb_eq | H%Nat.eqb_eq]%orb_prop; [done|].
    by destruct (strip text).
  - intros ->. apply orb_true_r.
Qed.

Lemma scores_blank
    (textblob_polarity textblob_subjectivity : string -> float)
    (word_tokenize : string -> list string)
    (spellcheck : string -> string * float) (text : string) :
  all_in is_space text = true ->
  sentiment_polarity_score textblob_polarity text = NotApplicable
  /\ sentiment_subjectivity_score textblob_subjectivity text = NotApplicable
  /\ spelling_quality_score word_tokenize spellcheck text = Ok NotApplicable.
Proof.
  intros H%blank_guard_iff.
  unfold sentiment_polarity_score, sentiment_subjectivity_score, spelling_quality_score.
  by rewrite H.
Qed.

(** X5. Each of the three score functions returns the NOT_APPLICABLE
    sentinel exactly for the texts made of whitespace only (the empty
    text included); on any other text the sentiment scores are the
    numbers of the analyser, and the spelling score is a number or an
    error, never the sentinel. *)
Theorem scores_not_applicable_iff_blank
    (textblob_polarity textblob_subjectivity : string -> float)
    (word_tokenize : string -> list string)
    (spellcheck : string -> string * float) (text : string) :
  (sentiment_polarity_score textblob_polarity text = NotApplicable
   <-> all_in is_space text = true)
  /\ (sentiment_subjectivity_score textblob_subjectivity text = NotApplicable
      <-> all_in is_space text = true)
  /\ (spelling_quality_score word_tokenize spellcheck text = Ok NotApplicable
      <-> all_in is_space text = true).
Proof.
  rewrite <- !blank_guard_iff.
  unfold sentiment_polarity_score, sentiment_subjectivity_score, spelling_quality_score.
  destruct (String.eqb text "" || (String.length (strip text) =? 0)%nat).
  - done.
  - split; [done|]. split; [done|]. split; [|done].
    destruct (check_words _ _ _ _) as [misspelt total].
    destruct (int_truediv _ _) as [avg|e]; simpl; [|done].
    by destruct (float_truediv _ _) as [r|e].
Qed.

(** X6. For a text made of whitespace only, the sentinel passes through
    the polarity and the subjectivity classifier and summariser
    unchanged, but the spelling summariser turns it into Bad: N/A does
    not contain the word good. *)
Theorem blank_text_summaries
    (textblob_polarity textblob_subjectivity : string -> float)
    (word_tokenize : string -> list string)
    (spellcheck : string -> string * float) (text : string) :
  all_in is_space text = true ->
  fmap (M := result) (fmap (M := option) sentiment_polarity_summarised)
    (sentiment_polarity (sentiment_polarity_score textblob_polarity text))
  = Ok (Some NOT_APPLICABLE)
  /\ fmap (M := result) (fmap (M := option) sentiment_subjectivity_summarised)
       (sentiment_subjectivity (sentiment_subjectivity_score textblob_subjectivity text))
     = Ok (Some NOT_APPLICABLE)
  /\ mbind (M := result)
       (fun score =>
          fmap (M := result) (fmap (M := option) spelling_quality_summarised)
            (spelling_quality score))
       (spelling_quality_score word_tokenize spellcheck text)
     = Ok (Some "Bad").
Proof.
  intros Hblank.
  destruct (scores_blank textblob_polarity textblob_subjectivity
              word_tokenize spellcheck text Hblank) as (-> & -> & ->).
  by vm_compute.
Qed.

(** Three spaces, with stand-ins for the collaborators. *)
Lemma blank_text_summaries_spaces :
  mbind (M := result)
    (fun score =>
       fmap (M := result) (fmap (M := option) spelling_quality_summarised)
         (spelling_quality score))
    (spelling_quality_score word_tokenize_spaces spellcheck_exact "   ")
  = Ok (Some "Bad").
Proof.
  apply (blank_text_summaries (fun _ => 0%float) (fun _ => 0%float)
           word_tokenize_spaces spellcheck_exact "   ").
  reflexivity.
Defined.

(** ** What [findall] collects *)

(** Whatever every match of the pattern satisfies, every collected item
    satisfies. *)
Lemma scan_Forall {A : Type} (m : bool -> option ascii -> string -> option (A * nat))
    (P : A -> Prop) :
  (forall must_advance prev s a n, m must_advance prev s = Some (a, n) -> P a) ->
  forall s skip prev, Forall P (scan m skip prev s).
Proof.
  intros Hm. induction s as [|c r IH]; intros skip prev.
  - destruct skip; cbn [scan]; [|constructor].
    destruct (m false prev "") as [[a [|n]]|] eqn:H1; [| |constructor].
    + constructor; [by eapply Hm|].
      destruct (m true prev "") as [[a' [|n']]|] eqn:H2; try constructor.
      * by eapply Hm.
      * constructor.
    + constructor; [by eapply Hm | constructor].
  - destruct skip; cbn [scan]; [|apply IH].
    destruct (m false prev (String c r)) as [[a [|n]]|] eqn:H1; [| |apply IH].
    + constructor; [by eapply Hm|].
      destruct (m true prev (String c r)) as [[a' [|n']]|] eqn:H2; try apply IH.
      constructor; [by eapply Hm | apply IH].
    + constructor; [by eapply Hm | apply IH].
Qed.

(** ** Sentences, continued *)

Lemma non_dot_run_no_dot_in (s : string) : str_in "." (non_dot_run s) = false.
Proof.
  induction s as [|c r IH]; [done|]. cbn [non_dot_run].
  destruct (Ascii.eqb c ".") eqn:Hc; [done|].
  rewrite str_in_dot_cons, Hc. exact IH.
Qed.

Lemma drop_blank_skipping_subset (lines : list string) :
  forall x, x ∈ drop_blank_skipping lines -> x ∈ lines.
Proof.
  assert (forall l : list string,
             (forall x, x ∈ drop_blank_skipping l -> x ∈ l)
             /\ (forall y x, x ∈ drop_blank_skipping (y :: l) -> x ∈ y :: l)) as H.
  { induction l as [|z l [IH1 IH2]].
    - split; [done|]. intros y x. cbn [drop_blank_skipping].
      destruct (String.eqb y ""); set_solver.
    - split; [apply IH2|]. intros y x. cbn [drop_blank_skipping].
      destruct (String.eqb y "").
      + rewrite !elem_of_cons. intros [Hx|Hx]; [auto|]. apply IH1 in Hx. auto.
      + rewrite !elem_of_cons. intros [Hx|Hx]; [auto|].
        apply IH2 in Hx. rewrite elem_of_cons in Hx. tauto. }
  apply H.
Qed.

Lemma scan_sentence_nonempty (s : string) :
  forall skip prev, (skip <= String.length s)%nat -> scan sentence_re skip prev s <> [].
Proof.
  induction s as [|c r IH]; intros skip prev Hskip.
  - destruct skip; [done | simpl in Hskip; lia].
  - destruct skip as [|skip]; [|cbn [scan]; apply IH; simpl in Hskip; lia].
    cbn [scan]. unfold sentence_re at 1. cbn [andb].
    by destruct (String.length (non_dot_run (String c r))).
Qed.

Lemma non_dot_run_length (s : string) :
  (String.length (non_dot_run s) <= String.length s)%nat.
Proof.
  induction s as [|c r IH]; [done|]. cbn [non_dot_run].
  destruct (Ascii.eqb c "."); simpl; lia.
Qed.

Lemma findall_sentence_two (c : ascii) (r : string) :
  exists x y rest, findall sentence_re (String c r) = x :: y :: rest.
Proof.
  unfold findall. cbn [scan]. unfold sentence_re at 1. cbn [andb non_dot_run].
  destruct (Ascii.eqb c ".") eqn:Hc.
  - cbn. unfold sentence_re at 1. cbn [non_dot_run]. rewrite Hc. cbn.
    pose proof (scan_sentence_nonempty r 0 (Some c) ltac:(lia)) as Hne.
    destruct (scan sentence_re 0 (Some c) r) as [|y rest]; [done|]. by eexists _, _, _.
  - cbn [String.length].
    pose proof (scan_sentence_nonempty r (String.length (non_dot_run r)) (Some c)
                  (non_dot_run_length r)) as Hne.
    destruct (scan sentence_re _ (Some c) r) as [|y rest]; [done|]. by eexists _, _, _.
Qed.

(** X7. A text that is not empty never has zero sentences, whatever it
    is made of (a lone dot counts as one), and no gathered sentence
    contains a dot. *)
Theorem count_sentences_positive (text : string) :
  text <> "" ->
  (1 <= count_sentences text)%nat
  /\ Forall (fun sentence => str_in "." sentence = false) (gather_sentences text).
Proof.
  intros Hne. split.
  - destruct text as [|c r]; [done|].
    unfold count_sentences. rewrite gather_sentences_eq.
    destruct (findall_sentence_two c r) as (x & y & rest & ->).
    cbn [drop_blank_skipping]. destruct (String.eqb x ""); simpl; lia.
  - rewrite gather_sentences_eq. apply Forall_forall.
    intros x Hx%drop_blank_skipping_subset. revert x Hx. apply Forall_forall.
    apply scan_Forall. intros b prev s a n. unfold sentence_re.
    destruct (b && _); [done|]. intros [= <- _]. apply non_dot_run_no_dot_in.
Qed.

Lemma count_sentences_positive_dots :
  (1 <= count_sentences "...")%nat.
Proof. apply (count_sentences_positive "..."). discriminate. Defined.

(** The pieces that are not blank, in [findall]'s result and in the
    split of the text, are the same. *)
Lemma split_on_dot_cons_piece (s : string) :
  forall piece,
    split_on_dot piece s = (piece ++ non_dot_run s)%string :: tail (split_on_dot "" s).
Proof.
  induction s as [|c r IH]; intros piece.
  - cbn. by rewrite string_app_empty_r.
  - cbn [split_on_dot non_dot_run]. destruct (Ascii.eqb c ".").
    + by rewrite string_app_empty_r.
    + change ("" ++ String c "")%string with (String c "").
      rewrite (IH (piece ++ String c "")%string), (IH (String c "")).
      cbn [tail]. by rewrite string_app_assoc.
Qed.

Lemma scan_sentence_split (s : string) :
  (forall prev,
     filter not_blank (scan sentence_re (String.length (non_dot_run s)) prev s)
     = filter not_blank (tail (split_on_dot "" s)))
  /\ (forall prev,
        filter not_blank (scan sentence_re 0 prev s)
        = filter not_blank (split_on_dot "" s)).
Proof.
  induction s as [|c r [IHa IHb]].
  - split; intros prev; reflexivity.
  - assert (forall prev,
               filter not_blank (scan sentence_re 0 prev (String c r))
               = filter not_blank (split_on_dot "" (String c r))) as Hb.
    { intros prev. cbn [scan split_on_dot]. unfold sentence_re at 1.
      cbn [andb non_dot_run]. destruct (Ascii.eqb c ".") eqn:Hc.
      - cbn [String.length]. unfold sentence_re at 1. cbn [non_dot_run].
        rewrite Hc. cbn [String.length Nat.eqb andb].
        rewrite !filter_cons_False by (unfold not_blank; tauto). apply IHb.
      - cbn [String.length]. rewrite split_on_dot_cons_piece.
        change ("" ++ String c "")%string with (String c "").
        rewrite string_app_cons. change ("" ++ non_dot_run r)%string with (non_dot_run r).
        rewrite !filter_cons_True by done. f_equal. apply IHa. }
    split; [|exact Hb].
    intros prev. cbn [non_dot_run]. destruct (Ascii.eqb c ".") eqn:Hc.
    + cbn [String.length]. rewrite Hb. cbn [split_on_dot]. rewrite Hc.
      cbn [tail]. by rewrite filter_cons_False by (unfold not_blank; tauto).
    + cbn [String.length scan]. rewrite IHa. cbn [split_on_dot]. rewrite Hc.
      rewrite (split_on_dot_cons_piece r (_ ++ _)%string). done.
Qed.

Lemma drop_blank_skipping_cons2 (y z : string) (l : list string) :
  drop_blank_skipping (y :: z :: l)
  = if String.eqb y "" then z :: drop_blank_skipping l
    else y :: drop_blank_skipping (z :: l).
Proof. reflexivity. Qed.

Lemma drop_blank_skipping_filter (lines : list string) :
  filter not_blank (drop_blank_skipping lines) = filter not_blank lines.
Proof.
  assert (forall l : list string,
             filter not_blank (drop_blank_skipping l) = filter not_blank l
             /\ (forall y, filter not_blank (drop_blank_skipping (y :: l))
                           = filter not_blank (y :: l))) as H.
  { induction l as [|z l [IH1 IH2]].
    - split; [done|]. intros y. cbn [drop_blank_skipping].
      destruct (String.eqb_spec y ""); [|done].
      subst. by rewrite filter_cons_False by (unfold not_blank; tauto).
    - split; [apply IH2|]. intros y. rewrite drop_blank_skipping_cons2.
      destruct (String.eqb_spec y "").
      + subst. rewrite (filter_cons_False _ "") by (unfold not_blank; tauto).
        rewrite !filter_cons, IH1. done.
      + rewrite !(filter_cons _ y), IH2. done. }
  apply H.
Qed.

(** X8. Among the gathered sentences, the ones that are not blank are
    exactly the pieces of the text between its dots that are not blank,
    in their order: the deleting loop loses no sentence, it only leaves
    blank entries behind. So the count is never below the number of such
    pieces. *)
Theorem gather_sentences_keeps_every_piece (text : string) :
  filter (fun piece => piece <> "") (gather_sentences text) = spec_sentences text
  /\ (spec_count_sentences text <= count_sentences text)%nat.
Proof.
  assert (filter not_blank (gather_sentences text) = spec_sentences text) as H.
  { rewrite gather_sentences_eq, drop_blank_skipping_filter.
    apply (scan_sentence_split text). }
  split; [exact H|].
  unfold spec_count_sentences, count_sentences. rewrite <- H.
  apply length_filter.
Qed.

(** ** Runs and classes *)

Lemma keep_run (p : ascii -> bool) (s : string) :
  keep p s = (class_run p s ++ keep p (after_run p s))%string.
Proof.
  induction s as [|c r IH]; [done|]. cbn [keep class_run after_run].
  destruct (p c) eqn:Hc.
  - by rewrite string_app_cons, IH.
  - cbn [keep]. by rewrite Hc.
Qed.

Lemma class_run_all_in (p : ascii -> bool) (s : string) :
  all_in p (class_run p s) = true.
Proof.
  induction s as [|c r IH]; [done|]. cbn [class_run].
  destruct (p c) eqn:Hc; [|done]. cbn [all_in]. by rewrite Hc.
Qed.

Lemma keep_app (p : ascii -> bool) (t u : string) :
  keep p (t ++ u)%string = (keep p t ++ keep p u)%string.
Proof.
  induction t as [|c t IH]; [done|]. rewrite string_app_cons. cbn [keep].
  destruct (p c); [by rewrite string_app_cons, IH | exact IH].
Qed.

Lemma keep_length (p : ascii -> bool) (s : string) :
  (String.length (keep p s) <= String.length s)%nat.
Proof.
  induction s as [|c r IH]; [done|]. cbn [keep].
  destruct (p c); cbn [String.length]; lia.
Qed.

(** Classes without a common character share out the text. *)
Lemma keep_disjoint_length (p q : ascii -> bool) (s : string) :
  (forall c, p c && q c = false) ->
  (String.length (keep p s) + String.length (keep q s) <= String.length s)%nat.
Proof.
  intros Hpq. induction s as [|c r IH]; [done|]. cbn [keep].
  specialize (Hpq c). destruct (p c), (q c); cbn [String.length]; try done; lia.
Qed.

Lemma keep_sub_length (p q : ascii -> bool) (s : string) :
  (forall c, p c = true -> q c = true) ->
  (String.length (keep p s) <= String.length (keep q s))%nat.
Proof.
  intros Hpq. induction s as [|c r IH]; [done|]. cbn [keep].
  specialize (Hpq c). destruct (p c), (q c); cbn [String.length]; try lia.
Qed.

Lemma concat_empty_cons (x : string) (l : list string) :
  String.concat "" (x :: l) = (x ++ String.concat "" l)%string.
Proof. destruct l; cbn; [by rewrite string_app_empty_r | done]. Qed.

Lemma list_of_string_length (s : string) :
  length (list_of_string s) = String.length s.
Proof.
  unfold list_of_string. rewrite length_map.
  induction s as [|c r IH]; simpl; [done | by rewrite IH].
Qed.

(** The count of a one-character pattern is the number of characters of
    its class. *)
Lemma scan_char_class_keep (p : ascii -> bool) (s : string) :
  forall prev, scan (char_class p) 0 prev s = list_of_string (keep p s).
Proof.
  induction s as [|c r IH]; intros prev; [done|].
  rewrite scan_char_class, IH. cbn [keep]. by destruct (p c).
Qed.

Lemma count_alpha_numeric_keep (text : string) :
  count_alpha_numeric text = String.length (keep is_alpha_numeric text).
Proof.
  unfold count_alpha_numeric, gather_alpha_numeric, findall.
  by rewrite scan_char_class_keep, list_of_string_length.
Qed.

Lemma count_non_alpha_numeric_keep (text : string) :
  count_non_alpha_numeric text
  = String.length (keep (fun c => negb (is_alpha_numeric c)) text).
Proof.
  unfold count_non_alpha_numeric, gather_non_alpha_numeric, findall.
  by rewrite scan_char_class_keep, list_of_string_length.
Qed.

Lemma count_spaces_keep (text : string) :
  count_spaces text = String.length (keep (fun c => Ascii.eqb c " ") text).
Proof.
  unfold count_spaces, findall.
  by rewrite scan_char_class_keep, list_of_string_length.
Qed.

(** ** Whole numbers *)

Lemma scan_whole_number (s : string) :
  (forall prev,
     String.concat "" (scan whole_number_re (String.length (class_run is_digit s)) prev s)
     = keep is_digit (after_run is_digit s))
  /\ (forall prev,
        String.concat "" (scan whole_number_re 0 prev s) = keep is_digit s).
Proof.
  induction s as [|c r [IHa IHb]].
  - split; intros prev; reflexivity.
  - assert (forall prev,
               String.concat "" (scan whole_number_re 0 prev (String c r))
               = keep is_digit (String c r)) as Hb.
    { intros prev. cbn [scan]. unfold whole_number_re at 1.
      cbn [class_run keep]. destruct (is_digit c) eqn:Hc.
      - cbn [String.length]. rewrite concat_empty_cons, IHa.
        by rewrite string_app_cons, <- keep_run.
      - cbn [String.length]. apply IHb. }
    split; [|exact Hb].
    intros prev. cbn [class_run after_run]. destruct (is_digit c) eqn:Hc.
    + cbn [String.length scan]. apply IHa.
    + cbn [String.length]. apply Hb.
Qed.

(** X9. Every gathered whole number is a string of digits that is not
    empty, and the gathered numbers, put together, are the digits of the
    text in their order: no digit is lost or counted twice. So there are
    at most as many whole numbers as digits. *)
Theorem gather_whole_numbers_digits (text : string) :
  Forall (fun number => number <> "" /\ all_in is_digit number = true)
         (gather_whole_numbers text)
  /\ String.concat "" (gather_whole_numbers text) = keep is_digit text
  /\ (count_whole_numbers text <= String.length (keep is_digit text))%nat.
Proof.
  assert (Forall (fun number => number <> "" /\ all_in is_digit number = true)
                 (gather_whole_numbers text)) as Hall.
  { apply scan_Forall. intros b prev s a n. unfold whole_number_re.
    destruct (class_run is_digit s) as [|d run] eqn:Hrun; [done|].
    cbn [String.length]. intros [= <- _]. split; [done|].
    rewrite <- Hrun. apply class_run_all_in. }
  assert (String.concat "" (gather_whole_numbers text) = keep is_digit text) as Hcat
    by apply (scan_whole_number text).
  split; [exact Hall|]. split; [exact Hcat|].
  unfold count_whole_numbers. rewrite <- Hcat.
  revert Hall. generalize (gather_whole_numbers text). clear.
  induction l as [|x l IH]; [done|]. intros [[Hx _] Hl]%Forall_cons.
  rewrite concat_empty_cons, string_length_app. cbn [length].
  specialize (IH Hl). destruct x; [done|]. cbn [String.length]. lia.
Qed.

(** ** Punctuations *)

Lemma scan_punctuation (s : string) :
  (forall prev,
     String.concat "" (scan punctuation_re (String.length (class_run is_punctuation s)) prev s)
     = keep is_punctuation (after_run is_punctuation s))
  /\ (forall prev,
        String.concat "" (scan punctuation_re 0 prev s) = keep is_punctuation s).
Proof.
  induction s as [|c r [IHa IHb]].
  - split; intros prev; reflexivity.
  - assert (forall prev,
               String.concat "" (scan punctuation_re 0 prev (String c r))
               = keep is_punctuation (String c r)) as Hb.
    { intros prev. cbn [scan]. unfold punctuation_re at 1.
      cbn [class_run keep andb]. destruct (is_punctuation c) eqn:Hc.
      - cbn [String.length]. rewrite concat_empty_cons, IHa.
        by rewrite string_app_cons, <- keep_run.
      - cbn [String.length]. unfold punctuation_re at 1.
        cbn [class_run]. rewrite Hc. cbn [String.length Nat.eqb andb].
        rewrite concat_empty_cons. apply IHb. }
    split; [|exact Hb].
    intros prev. cbn [class_run after_run]. destruct (is_punctuation c) eqn:Hc.
    + cbn [String.length scan]. apply IHa.
    + cbn [String.length]. apply Hb.
Qed.

Lemma gather_punctuations_keep (text : string) :
  gather_punctuations text = list_of_string (keep is_punctuation text).
Proof.
  unfold gather_punctuations. f_equal. apply (scan_punctuation text).
Qed.

Lemma count_punctuations_keep (text : string) :
  count_punctuations text = String.length (keep is_punctuation text).
Proof.
  unfold count_punctuations. by rewrite gather_punctuations_keep, list_of_string_length.
Qed.

(** X10. The gathered punctuations are the characters of the text that
    belong to the class of the pattern, one entry for each, in their
    order: the empty matches of the starred pattern and the grouping of
    neighbours into one match leave no trace. The count is the number of
    such characters. *)
Theorem gather_punctuations_characters (text : string) :
  gather_punctuations text = list_of_string (keep is_punctuation text)
  /\ count_punctuations text = String.length (keep is_punctuation text).
Proof. split; [apply gather_punctuations_keep | apply count_punctuations_keep]. Qed.

(** ** How the character counters relate *)

Lemma keep_partition (p : ascii -> bool) (s : string) :
  (String.length (keep p s) + String.length (keep (fun c => negb (p c)) s))%nat
  = String.length s.
Proof.
  induction s as [|c r IH]; [done|]. cbn [keep].
  destruct (p c); cbn [negb String.length]; lia.
Qed.

Lemma keep_two_in (p q r : ascii -> bool) (s : string) :
  (forall c, p c && q c = false) ->
  (forall c, p c = true -> r c = true) ->
  (forall c, q c = true -> r c = true) ->
  (String.length (keep p s) + String.length (keep q s)
   <= String.length (keep r s))%nat.
Proof.
  intros Hpq Hp Hq. induction s as [|c s IH]; [done|]. cbn [keep].
  specialize (Hpq c). specialize (Hp c). specialize (Hq c).
  destruct (p c), (q c), (r c); cbn [String.length]; try lia; try done.
Qed.

Ltac by_cases_on_character c :=
  destruct c as [[] [] [] [] [] [] [] []]; by vm_compute.

Lemma punctuation_not_space (c : ascii) :
  is_punctuation c && Ascii.eqb c " " = false.
Proof. by_cases_on_character c. Qed.

Lemma punctuation_not_alpha_numeric (c : ascii) :
  is_punctuation c = true -> negb (is_alpha_numeric c) = true.
Proof. by_cases_on_character c. Qed.

Lemma space_not_alpha_numeric (c : ascii) :
  Ascii.eqb c " " = true -> negb (is_alpha_numeric c) = true.
Proof. by_cases_on_character c. Qed.

Lemma alpha_numeric_not_space (c : ascii) :
  is_alpha_numeric c = true -> negb (Ascii.eqb c " ") = true.
Proof. by_cases_on_character c. Qed.

(** X11. No character is counted by two of the counters of letters and
    digits, of punctuations and of spaces: punctuations and spaces are
    among the characters that are not alphanumeric, and the three counts
    together do not exceed the length of the text. *)
Theorem character_counters_disjoint (text : string) :
  (count_punctuations text + count_spaces text <= count_non_alpha_numeric text)%nat
  /\ (count_alpha_numeric text + count_punctuations text + count_spaces text
      <= characters_count text)%nat.
Proof.
  assert (count_punctuations text + count_spaces text
          <= count_non_alpha_numeric text)%nat as H.
  { rewrite count_punctuations_keep, count_spaces_keep, count_non_alpha_numeric_keep.
    apply keep_two_in.
    - apply punctuation_not_space.
    - apply punctuation_not_alpha_numeric.
    - apply space_not_alpha_numeric. }
  split; [exact H|].
  pose proof (scan_char_class_partition is_alpha_numeric text None) as Hpart.
  unfold characters_count.
  unfold count_alpha_numeric, gather_alpha_numeric, count_non_alpha_numeric,
    gather_non_alpha_numeric, findall in *.
  lia.
Qed.

(** X12. The counters that work character by character add up over a
    concatenation: the alphanumeric characters, the other characters, the
    punctuations, the spaces and the characters other than spaces of two
    texts put together are those of the one plus those of the other. *)
Theorem character_counters_additive (t u : string) :
  count_alpha_numeric (t ++ u)%string
  = (count_alpha_numeric t + count_alpha_numeric u)%nat
  /\ count_non_alpha_numeric (t ++ u)%string
     = (count_non_alpha_numeric t + count_non_alpha_numeric u)%nat
  /\ count_punctuations (t ++ u)%string
     = (count_punctuations t + count_punctuations u)%nat
  /\ count_spaces (t ++ u)%string = (count_spaces t + count_spaces u)%nat
  /\ count_characters_excluding_spaces (t ++ u)%string
     = (count_characters_excluding_spaces t + count_characters_excluding_spaces u)%Z.
Proof.
  assert (count_spaces (t ++ u)%string = (count_spaces t + count_spaces u)%nat) as Hs.
  { by rewrite !count_spaces_keep, keep_app, string_length_app. }
  split; [apply count_alpha_numeric_app|].
  split; [apply count_non_alpha_numeric_app|].
  split; [|split; [exact Hs|]].
  - by rewrite !count_punctuations_keep, keep_app, string_length_app.
  - unfold count_characters_excluding_spaces. rewrite Hs, string_length_app. lia.
Qed.

(** X13. The number of characters excluding spaces is never negative: it
    is the number of characters other than the space, so it lies between
    the alphanumeric count and the length of the text. *)
Theorem count_characters_excluding_spaces_bounds (text : string) :
  count_characters_excluding_spaces text
  = Z.of_nat (String.length (keep (fun c => negb (Ascii.eqb c " ")) text))
  /\ (Z.of_nat (count_alpha_numeric text)
      <= count_characters_excluding_spaces text
      <= Z.of_nat (characters_count text))%Z.
Proof.
  pose proof (keep_partition (fun c => Ascii.eqb c " ") text) as Hpart.
  pose proof (keep_sub_length is_alpha_numeric (fun c => negb (Ascii.eqb c " ")) text
                alpha_numeric_not_space) as Hsub.
  unfold count_characters_excluding_spaces, characters_count.
  rewrite count_spaces_keep, count_alpha_numeric_keep. lia.
Qed.

(** ** Words *)

Lemma class_run_all (p : ascii -> bool) (s : string) :
  all_in p s = true -> class_run p s = s /\ after_run p s = "".
Proof.
  induction s as [|c r IH]; [done|]. cbn [all_in class_run after_run].
  intros [-> Hr]%andb_prop. destruct (IH Hr) as [-> ->]. done.
Qed.

Lemma after_run_not_all (p : ascii -> bool) (s : string) :
  all_in p s = false ->
  exists d rest, after_run p s = String d rest /\ p d = false.
Proof.
  induction s as [|c r IH]; [done|]. cbn [all_in after_run].
  destruct (p c) eqn:Hc; [|by eexists _, _]. exact IH.
Qed.

Lemma after_run_all_in (p q : ascii -> bool) (s : string) :
  all_in q s = true -> all_in q (after_run p s) = true.
Proof.
  induction s as [|c r IH]; [done|]. cbn [all_in after_run].
  intros [Hc Hr]%andb_prop. destruct (p c); [by apply IH|].
  cbn [all_in]. by rewrite Hc, Hr.
Qed.

Lemma last_char_is_Some (c : ascii) (r : string) :
  exists l, last_char (String c r) = Some l.
Proof.
  revert c. induction r as [|d r IH]; intros c; [by eexists|].
  destruct (IH d) as [l Hl]. exists l. exact Hl.
Qed.

Lemma last_char_all_in (p : ascii -> bool) (s : string) (l : ascii) :
  all_in p s = true -> last_char s = Some l -> p l = true.
Proof.
  induction s as [|c r IH]; [done|]. cbn [all_in].
  intros [Hc Hr]%andb_prop. destruct r as [|d r'].
  - by intros [= <-].
  - intros Hl. by apply IH.
Qed.

Lemma word_letter_is_word_char (c : ascii) :
  is_word_letter c = true -> is_word_char c = true.
Proof. unfold is_word_letter. by intros [? _]%andb_prop. Qed.

Lemma words_re_Some (must_advance : bool) (prev : option ascii) (s word : string)
    (n : nat) :
  words_re must_advance prev s = Some (word, n) ->
  word = class_run is_word_letter s /\ word <> ""
  /\ n = String.length word
  /\ is_word prev = false
  /\ is_word (head_char (after_run is_word_letter s)) = false.
Proof.
  unfold words_re.
  destruct (word_boundary prev (head_char s)) eqn:Hstart; [|done].
  destruct (class_run is_word_letter s) as [|c run] eqn:Hrun; [done|].
  cbn [String.length].
  destruct (word_boundary (last_char _) _) eqn:Hend; [|done]. intros [= <- <-].
  pose proof (class_run_all_in is_word_letter s) as Hall. rewrite Hrun in Hall.
  destruct (last_char_is_Some c run) as [l Hl].
  pose proof (last_char_all_in _ _ _ Hall Hl) as Hletter%word_letter_is_word_char.
  rewrite Hl in Hend. unfold word_boundary in Hend. cbn [is_word] in Hend.
  rewrite Hletter in Hend.
  repeat split; try done.
  - destruct s as [|c' r']; [done|]. cbn [class_run] in Hrun.
    destruct (is_word_letter c') eqn:Hc'; [|done].
    apply word_letter_is_word_char in Hc'.
    unfold word_boundary in Hstart. cbn [head_char is_word] in Hstart.
    rewrite Hc' in Hstart. by destruct (is_word prev).
  - by destruct (is_word (head_char (after_run is_word_letter s))).
Qed.

(** X14. Every gathered word is made of word characters that are not
    digits, and is not empty. *)
Theorem gather_words_letters_only (text : string) :
  Forall (fun word => word <> "" /\ all_in is_word_letter word = true
                      /\ keep is_digit word = "")
         (gather_words text).
Proof.
  apply scan_Forall. intros b prev s word n Hm.
  apply words_re_Some in Hm as (-> & Hne & _).
  split; [done|]. pose proof (class_run_all_in is_word_letter s) as Hall.
  split; [done|]. revert Hall. generalize (class_run is_word_letter s). clear.
  induction s as [|c r IH]; [done|]. cbn [all_in keep].
  intros [Hc Hr]%andb_prop. unfold is_word_letter in Hc.
  apply andb_prop in Hc as [_ Hc]. destruct (is_digit c); [done|]. by apply IH.
Qed.

Lemma scan_words_end (prev : option ascii) : scan words_re 0 prev "" = [].
Proof.
  cbn [scan]. unfold words_re. cbn [head_char class_run String.length].
  by destruct (word_boundary prev None).
Qed.

Lemma scan_words_skip_all (r : string) :
  forall prev, scan words_re (String.length r) prev r = [].
Proof.
  induction r as [|c r IH]; intros prev; [apply scan_words_end | apply IH].
Qed.

(** Inside a run of word characters no word starts. *)
Lemma scan_words_inside (s : string) :
  forall prev,
    is_word prev = true -> all_in is_word_char s = true ->
    scan words_re 0 prev s = [].
Proof.
  induction s as [|c r IH]; intros prev Hprev Hall; [apply scan_words_end|].
  cbn [all_in] in Hall. apply andb_prop in Hall as [Hc Hr].
  cbn [scan]. unfold words_re at 1. unfold word_boundary at 1.
  cbn [head_char is_word]. rewrite Hprev, Hc. cbn [xorb]. by apply IH.
Qed.

(** X15. A token is a word only as a whole: for a text made of word
    characters only (letters, digits, the underscore), the one word
    gathered is the text itself when it has no digit, and nothing at all
    is gathered when it has one. A token that mixes letters and digits is
    not counted, no more than a number is. *)
Theorem gather_words_one_token (token : string) :
  token <> "" -> all_in is_word_char token = true ->
  gather_words token = if all_in is_word_letter token then [token] else [].
Proof.
  intros Hne Hall. destruct token as [|c r]; [done|].
  pose proof Hall as Hall'. cbn [all_in] in Hall'. apply andb_prop in Hall' as [Hc Hr].
  unfold gather_words, findall.
  destruct (all_in is_word_letter (String c r)) eqn:Hletters.
  - destruct (class_run_all _ _ Hletters) as [Hrun Hafter].
    rewrite (scan_match_step words_re None c r (String c r) (String.length r)).
    + by rewrite scan_words_skip_all.
    + unfold words_re. unfold word_boundary at 1. cbn [head_char is_word].
      rewrite Hc, Hrun, Hafter. cbn [xorb String.length head_char].
      destruct (last_char_is_Some c r) as [l Hl]. rewrite Hl.
      pose proof (last_char_all_in _ _ _ Hall Hl) as Hword.
      unfold word_boundary. cbn [is_word]. by rewrite Hword.
  - assert (words_re false None (String c r) = None) as Hnone.
    { destruct (words_re false None (String c r)) as [[word n]|] eqn:Hm; [|done].
      apply words_re_Some in Hm as (_ & _ & _ & _ & Hafter).
      destruct (after_run_not_all _ _ Hletters) as (d & rest & Hd & _).
      pose proof (after_run_all_in is_word_letter _ _ Hall) as Hw.
      rewrite Hd in Hafter, Hw. cbn [head_char is_word] in Hafter.
      cbn [all_in] in Hw. apply andb_prop in Hw as [Hw _]. congruence. }
    cbn [scan]. rewrite Hnone. apply scan_words_inside; [exact Hc | exact Hr].
Qed.

Lemma gather_words_one_token_mixed :
  gather_words "abc1" = [] /\ gather_words "a_b" = ["a_b"].
Proof.
  split.
  - apply (gather_words_one_token "abc1"); [discriminate | reflexivity].
  - apply (gather_words_one_token "a_b"); [discriminate | reflexivity].
Defined.

(** ** Dates, continued *)

Lemma day_digits_spec (a b : ascii) :
  day_digits a b = true ->
  is_digit a = true /\ is_digit b = true /\ (1 <= decimal (str2 a b) <= 31)%N.
Proof.
  unfold day_digits, is_digit, in_range, decimal, str2, decimal_go, digit_value.
  generalize (ord a) (ord b). intros x y.
  rewrite !orb_true_iff, !andb_true_iff, !N.leb_le, !N.eqb_eq. lia.
Qed.

Lemma month_digits_spec (a b : ascii) :
  month_digits a b = true ->
  is_digit a = true /\ is_digit b = true /\ (1 <= decimal (str2 a b) <= 12)%N.
Proof.
  unfold month_digits, is_digit, in_range, decimal, str2, decimal_go, digit_value.
  generalize (ord a) (ord b). intros x y.
  rewrite !orb_true_iff, !andb_true_iff, !N.leb_le, !N.eqb_eq. lia.
Qed.

Lemma date_re_Some (re : date_regex) (must_advance : bool) (prev : option ascii)
    (s first second year : string) (n : nat) :
  date_re re must_advance prev s = Some ((first, second, year), n) ->
  match re with
  | ddmmyyyy => valid_date first second year
  | mmddyyyy => valid_date second first year
  end.
Proof.
  unfold date_re.
  destruct s as [|a [|b [|s1 [|c [|d [|s2 [|y1 [|y2 [|y3 [|y4 rest]]]]]]]]]]; try done.
  destruct (word_boundary prev (Some a) && _ && _ && _ && _ && _ && _ && _ && _) eqn:H;
    [|done].
  intros [= <- <- <- _].
  repeat (apply andb_prop in H as [H ?]).
  assert (all_in is_digit (String y1 (String y2 (String y3 (String y4 "")))) = true)
    as Hyear
    by (cbn [all_in];
        repeat match goal with Hd : is_digit _ = true |- _ => rewrite Hd; clear Hd end;
        done).
  match goal with
  | Hgroups : match re with ddmmyyyy => _ | mmddyyyy => _ end = true |- _ =>
      destruct re; apply andb_prop in Hgroups as [Hfirst Hsecond]
  end.
  - apply day_digits_spec in Hfirst as (Ha & Hb & [Hab1 Hab2]).
    apply month_digits_spec in Hsecond as (Hc & Hd & [Hcd1 Hcd2]).
    unfold valid_date, str2 in *. cbn [all_in String.length].
    rewrite Ha, Hb, Hc, Hd. repeat split; done.
  - apply month_digits_spec in Hfirst as (Ha & Hb & [Hab1 Hab2]).
    apply day_digits_spec in Hsecond as (Hc & Hd & [Hcd1 Hcd2]).
    unfold valid_date, str2 in *. cbn [all_in String.length].
    rewrite Ha, Hb, Hc, Hd. repeat split; done.
Qed.

(** X16. Under either supported format gather_dates returns a list and
    does not raise, and each date in it has two digits for the day, two
    for the month and four for the year, with a day from 1 to 31 and a
    month from 1 to 12; under mm/dd/yyyy the month is the first group.
    Nothing else is checked (the day is not matched against the
    month). *)
Theorem gather_dates_valid (text : string) :
  (exists dates,
      gather_dates text "dd/mm/yyyy" = Ok dates
      /\ Forall (fun '(day, month, year) => valid_date day month year) dates)
  /\ (exists dates,
         gather_dates text "mm/dd/yyyy" = Ok dates
         /\ Forall (fun '(month, day, year) => valid_date day month year) dates).
Proof.
  split.
  - exists (findall (date_re ddmmyyyy) text). split; [reflexivity|].
    apply scan_Forall. intros b prev s [[first second] year] n H.
    by apply date_re_Some in H.
  - exists (findall (date_re mmddyyyy) text). split; [reflexivity|].
    apply scan_Forall. intros b prev s [[first second] year] n H.
    by apply date_re_Some in H.
Qed.

(** ** Emojis, continued *)

(** Stepping over the characters of a match leads to the search on
    what follows them. *)
Lemma scan_skip_drop {A : Type} (m : bool -> option ascii -> string -> option (A * nat))
    (s : string) :
  forall skip prev,
    (skip <= String.length s)%nat ->
    exists prev', scan m skip prev s = scan m 0 prev' (string_drop skip s).
Proof.
  induction s as [|c r IH]; intros skip prev Hskip.
  - destruct skip; [by exists prev | simpl in Hskip; lia].
  - destruct skip as [|skip]; [by exists prev|].
    cbn [scan string_drop]. apply IH. simpl in Hskip. lia.
Qed.

Lemma string_drop_length (s : string) :
  forall n, (String.length (string_drop n s) <= String.length s)%nat.
Proof.
  induction s as [|c r IH]; intros n; [by destruct n|].
  destruct n as [|n]; [done|]. cbn [string_drop String.length].
  specialize (IH n). lia.
Qed.

Lemma lazy_to_colon_Some (s : string) :
  forall name n,
    lazy_to_colon s = Some (name, n) ->
    all_in in_name name = true
    /\ (n <= String.length s)%nat
    /\ String.length (keep is_colon s)
       = S (String.length (keep is_colon (string_drop n s))).
Proof.
  induction s as [|c r IH]; intros name n; [done|].
  cbn [lazy_to_colon keep]. unfold is_colon at 1.
  destruct (Ascii.eqb c ":") eqn:Hc.
  - intros [= <- <-]. cbn. split; [done|]. split; [lia | done].
  - destruct (ord c =? 10)%N eqn:Hnl; [done|].
    destruct (lazy_to_colon r) as [[name' n']|] eqn:Hr; [|done].
    intros [= <- <-]. destruct (IH _ _ eq_refl) as (Hall & Hlen & Hcolons).
    cbn [all_in string_drop String.length]. unfold in_name at 1, is_colon.
    rewrite Hc, Hnl. split; [done|]. split; [lia | done].
Qed.

Lemma emoji_re_Some (must_advance : bool) (prev : option ascii) (s name : string)
    (n : nat) :
  emoji_re must_advance prev s = Some (name, n) -> all_in in_name name = true.
Proof.
  unfold emoji_re. destruct s as [|c r]; [done|].
  destruct (Ascii.eqb c ":"); [|done].
  destruct (lazy_to_colon r) as [[name' n']|] eqn:Hr; [|done].
  intros [= <- _]. by apply lazy_to_colon_Some in Hr as [? _].
Qed.

Lemma scan_emoji_colons (fuel : nat) :
  forall s prev,
    (String.length s <= fuel)%nat ->
    (2 * length (scan emoji_re 0 prev s) <= String.length (keep is_colon s))%nat.
Proof.
  induction fuel as [|fuel IH]; intros s prev Hfuel.
  - destruct s; [simpl; lia | simpl in Hfuel; lia].
  - destruct s as [|c r]; [simpl; lia|].
    cbn [String.length] in Hfuel.
    assert (2 * length (scan emoji_re 0 (Some c) r)
            <= String.length (keep is_colon (String c r)))%nat as Hnext.
    { specialize (IH r (Some c) ltac:(lia)). cbn [keep].
      destruct (is_colon c); cbn [String.length]; lia. }
    cbn [scan]. unfold emoji_re at 1.
    destruct (Ascii.eqb c ":") eqn:Hc; [|exact Hnext].
    destruct (lazy_to_colon r) as [[name n]|] eqn:Hr; [|exact Hnext].
    apply lazy_to_colon_Some in Hr as (_ & Hlen & Hcolons).
    destruct (scan_skip_drop emoji_re r n (Some c) Hlen) as [prev' ->].
    pose proof (string_drop_length r n) as Hdrop.
    specialize (IH (string_drop n r) prev' ltac:(lia)).
    cbn [keep length]. unfold is_colon at 1. rewrite Hc. cbn [String.length]. lia.
Qed.

(** X17. A gathered emoji name contains neither a colon nor a newline,
    and each name uses up two colons of the transliterated text, so twice
    the emoji count is at most the number of its colons: a text with
    fewer than two colons after transliteration has no emoji. *)
Theorem gather_emojis_names (demojize : string -> string) (text : string) :
  Forall (fun name => all_in in_name name = true) (gather_emojis demojize text)
  /\ (2 * count_emojis demojize text
      <= String.length (keep is_colon (demojize text)))%nat.
Proof.
  split.
  - apply scan_Forall. intros b prev s name n. apply emoji_re_Some.
  - unfold count_emojis, gather_emojis, findall. by eapply scan_emoji_colons.
Qed.

(** ** Grammar quality *)

Lemma string_app_inv_tail (a b t : string) :
  (a ++ t)%string = (b ++ t)%string -> a = b.
Proof.
  revert b. induction a as [|c a IH]; intros [|d b] H.
  - done.
  - apply (f_equal String.length) in H. rewrite !string_length_app in H.
    cbn [String.length] in H. lia.
  - apply (f_equal String.length) in H. rewrite !string_length_app in H.
    cbn [String.length] in H. lia.
  - rewrite !string_app_cons in H. injection H as -> H. f_equal. by apply IH.
Qed.

Lemma decimal_go_app (t s : string) :
  forall acc, decimal_go acc (t ++ s)%string = decimal_go (decimal_go acc t) s.
Proof.
  induction t as [|c t IH]; intros acc; [done|].
  rewrite string_app_cons. cbn [decimal_go]. apply IH.
Qed.

Lemma pretty_N_go_app (x : N) :
  forall s, pretty_N_go x s = (pretty_N_go x "" ++ s)%string.
Proof.
  induction (N.lt_wf_0 x) as [x _ IH]; intros s.
  destruct (decide (x = 0)%N) as [->|Hx].
  - by rewrite !pretty_N_go_0.
  - rewrite !(pretty_N_go_step x) by lia.
    assert (x `div` 10 < x)%N as Hlt by (apply N.div_lt; lia).
    rewrite (IH _ Hlt (String _ s)), (IH _ Hlt (String _ "")).
    by rewrite string_app_assoc.
Qed.

Lemma digit_value_pretty_N_char (d : N) :
  (d < 10)%N -> digit_value (pretty_N_char d) = d.
Proof.
  intros Hd.
  assert (d = 0 \/ d = 1 \/ d = 2 \/ d = 3 \/ d = 4 \/ d = 5 \/ d = 6 \/ d = 7
          \/ d = 8 \/ d = 9)%N as H by lia.
  repeat (destruct H as [-> | H]; [by vm_compute|]). subst. by vm_compute.
Qed.

(** Reading the decimal notation of a number gives the number back. *)
Lemma decimal_pretty_N_go (x : N) : decimal (pretty_N_go x "") = x.
Proof.
  unfold decimal. induction (N.lt_wf_0 x) as [x _ IH].
  destruct (decide (x = 0)%N) as [->|Hx]; [by rewrite pretty_N_go_0|].
  rewrite pretty_N_go_step by lia.
  assert (x `div` 10 < x)%N as Hlt by (apply N.div_lt; lia).
  rewrite pretty_N_go_app, decimal_go_app, (IH _ Hlt). cbn [decimal_go].
  rewrite digit_value_pretty_N_char by (apply N.mod_lt; lia).
  pose proof (N.div_mod x 10 ltac:(lia)). lia.
Qed.

Lemma decimal_pretty_pos (p : positive) : decimal (pretty (Z.pos p)) = N.pos p.
Proof.
  change (pretty (Z.pos p)) with (pretty_N_go (N.pos p) "").
  apply decimal_pretty_N_go.
Qed.

Lemma pretty_N_char_digit (d : N) : is_digit (pretty_N_char d) = true.
Proof. unfold pretty_N_char. by repeat case_match. Qed.

Lemma pretty_N_char_zero (d : N) :
  (0 < d < 10)%N -> pretty_N_char d <> "0"%char.
Proof.
  intros Hd.
  assert (d = 1 \/ d = 2 \/ d = 3 \/ d = 4 \/ d = 5 \/ d = 6 \/ d = 7
          \/ d = 8 \/ d = 9)%N as H by lia.
  repeat (destruct H as [-> | H]; [by vm_compute|]). subst. by vm_compute.
Qed.

(** The notation of a positive number has digits only and does not begin
    with the digit 0. *)
Lemma pretty_N_go_digits (x : N) :
  forall s, all_in is_digit s = true -> all_in is_digit (pretty_N_go x s) = true.
Proof.
  induction (N.lt_wf_0 x) as [x _ IH]; intros s Hs.
  destruct (decide (x = 0)%N) as [->|Hx]; [by rewrite pretty_N_go_0|].
  rewrite pretty_N_go_step by lia.
  apply IH; [apply N.div_lt; lia|]. cbn [all_in]. by rewrite pretty_N_char_digit, Hs.
Qed.

Lemma pretty_N_go_head (x : N) :
  forall s, (0 < x)%N ->
    exists c r, pretty_N_go x s = String c r /\ c <> "0"%char.
Proof.
  induction (N.lt_wf_0 x) as [x _ IH]; intros s Hx.
  rewrite pretty_N_go_step by lia.
  destruct (decide (x `div` 10 = 0)%N) as [Hdiv|Hdiv].
  - rewrite Hdiv, pretty_N_go_0. eexists _, _. split; [done|].
    apply pretty_N_char_zero. pose proof (N.div_mod x 10 ltac:(lia)) as Hdm.
    pose proof (N.mod_lt x 10 ltac:(lia)) as Hm. rewrite Hdiv in Hdm. lia.
  - assert (x `div` 10 < x)%N as Hlt by (apply N.div_lt; lia).
    assert (0 < x `div` 10)%N as Hpos by (by apply N.neq_0_lt_0).
    exact (IH _ Hlt _ Hpos).
Qed.

Lemma pretty_pos_decimal_notation (p : positive) :
  all_in is_digit (pretty (Z.pos p)) = true
  /\ (exists c r, pretty (Z.pos p) = String c r /\ c <> "0"%char)
  /\ decimal (pretty (Z.pos p)) = N.pos p.
Proof.
  split; [|split].
  - change (pretty (Z.pos p)) with (pretty_N_go (N.pos p) "").
    by apply pretty_N_go_digits.
  - change (pretty (Z.pos p)) with (pretty_N_go (N.pos p) "").
    apply pretty_N_go_head. lia.
  - apply decimal_pretty_pos.
Qed.

Lemma grammar_quality_many (score : Z) :
  (2 <= score)%Z ->
  grammar_quality score = (pretty score ++ " issues")%string
  /\ decimal (pretty score) = Z.to_N score.
Proof.
  intros Hs. unfold grammar_quality.
  destruct (score =? 1)%Z eqn:H1; [lia|].
  destruct (1 <? score)%Z eqn:H2; [|lia].
  split; [done|]. destruct score as [|p|p]; try lia. apply decimal_pretty_pos.
Qed.

Lemma many_issues_not_none (score : Z) :
  (2 <= score)%Z -> (pretty score ++ " issues")%string <> "No issues".
Proof.
  intros Hs H. change "No issues" with ("No" ++ " issues")%string in H.
  apply string_app_inv_tail in H.
  destruct (grammar_quality_many score Hs) as [_ Hd]. rewrite H in Hd.
  assert (decimal "No" = 363%N) as Hno by (by vm_compute).
  assert (score = 363%Z) as -> by lia.
  by vm_compute in H.
Qed.

Lemma many_issues_not_one (score : Z) :
  (2 <= score)%Z -> (pretty score ++ " issues")%string <> "1 issue".
Proof.
  intros Hs H. apply (f_equal String.length) in H.
  rewrite string_length_app in H. cbn [String.length] in H.
  destruct (grammar_quality_many score Hs) as [_ Hd].
  destruct (pretty score) as [|c r]; [|cbn [String.length] in H; lia].
  change (decimal "") with 0%N in Hd. lia.
Qed.

(** X18. The grammar label tells the number of issues apart: it is
    No issues exactly for a score of 0 or less, 1 issue exactly for the
    score 1, and for a score of 2 or more it is the decimal notation of
    the score (digits only, the first of them not 0, standing for the
    score) followed by the word issues. *)
Theorem grammar_quality_labels (score : Z) :
  (grammar_quality score = "No issues" <-> (score <= 0)%Z)
  /\ (grammar_quality score = "1 issue" <-> score = 1%Z)
  /\ ((2 <= score)%Z ->
      exists first rest,
        grammar_quality score = (String first rest ++ " issues")%string
        /\ all_in is_digit (String first rest) = true
        /\ first <> "0"%char
        /\ decimal (String first rest) = Z.to_N score).
Proof.
  assert (score <= 0 \/ score = 1 \/ 2 <= score)%Z as [H | [-> | H]] by lia.
  - assert (grammar_quality score = "No issues") as ->.
    { unfold grammar_quality.
      destruct (score =? 1)%Z eqn:H1; [lia|]. by destruct (1 <? score)%Z eqn:H2; [lia|]. }
    split; [done|]. split; [split; [done | lia] | lia].
  - split; [split; [done | lia]|]. split; [done | lia].
  - destruct (grammar_quality_many score H) as [Hq Hd]. rewrite Hq.
    split; [split; [by intros ?%many_issues_not_none | lia]|].
    split; [split; [by intros ?%many_issues_not_one | lia]|].
    intros _. destruct score as [|p|p]; try lia.
    destruct (pretty_pos_decimal_notation p) as (Hdigits & (c & r & Hp & Hc) & Hdec).
    exists c, r. rewrite <- Hp. by repeat split.
Qed.

Lemma grammar_quality_labels_twelve :
  exists first rest,
    grammar_quality 12 = (String first rest ++ " issues")%string
    /\ all_in is_digit (String first rest) = true
    /\ first <> "0"%char
    /\ decimal (String first rest) = 12%N.
Proof. apply (proj2 (proj2 (grammar_quality_labels 12))). lia. Defined.

(** X19. Two texts with different numbers of grammar issues get different
    labels: the label of a count determines the count. *)
Theorem grammar_quality_injective_on_counts
    {Match : Type} (tool_check : string -> list Match) (t u : string) :
  grammar_quality (Z.of_nat (grammar_check_score tool_check t))
  = grammar_quality (Z.of_nat (grammar_check_score tool_check u)) ->
  grammar_check_score tool_check t = grammar_check_score tool_check u.
Proof.
  generalize (grammar_check_score tool_check t) (grammar_check_score tool_check u).
  intros a b Hq.
  assert (forall n : nat,
             (n = 0%nat /\ grammar_quality (Z.of_nat n) = "No issues")
             \/ (n = 1%nat /\ grammar_quality (Z.of_nat n) = "1 issue")
             \/ ((2 <= Z.of_nat n)%Z
                 /\ grammar_quality (Z.of_nat n)
                    = (pretty (Z.of_nat n) ++ " issues")%string))
    as Hcases.
  { intros [|[|n]]; [by left | by right; left |].
    right; right. split; [lia|]. apply grammar_quality_many. lia. }
  destruct (Hcases a) as [[-> Ha] | [[-> Ha] | [Ha2 Ha]]];
    destruct (Hcases b) as [[-> Hb] | [[-> Hb] | [Hb2 Hb]]];
    try done; rewrite Ha, Hb in Hq; try done.
  - symmetry in Hq. by apply many_issues_not_none in Hq.
  - symmetry in Hq. by apply many_issues_not_one in Hq.
  - by apply many_issues_not_none in Hq.
  - by apply many_issues_not_one in Hq.
  - apply string_app_inv_tail in Hq. apply (inj pretty) in Hq. lia.
Qed.

Lemma grammar_quality_injective_on_counts_same :
  grammar_check_score (fun text : string => [text; text]) "a"
  = grammar_check_score (fun text : string => [text; text]) "b".
Proof.
  apply (grammar_quality_injective_on_counts (fun text : string => [text; text]) "a" "b").
  reflexivity.
Defined.

(** ** Summarisers, on every label *)

(** X20. Each summariser is idempotent on every label, not only on its
    canonical categories: summarising a summary changes nothing. *)
Theorem summarisers_idempotent (label : string) :
  sentiment_polarity_summarised (sentiment_polarity_summarised label)
  = sentiment_polarity_summarised label
  /\ sentiment_subjectivity_summarised (sentiment_subjectivity_summarised label)
     = sentiment_subjectivity_summarised label
  /\ spelling_quality_summarised (spelling_quality_summarised label)
     = spelling_quality_summarised label.
Proof.
  split; [apply sentiment_polarity_summarised_idem|].
  split; [apply sentiment_subjectivity_summarised_idem
         | apply spelling_quality_summarised_idem].
Qed.

(** ** Duplicates *)

Lemma string_compare_trans (s1 : string) :
  forall s2 s3,
    String.compare s1 s2 <> Gt -> String.compare s2 s3 <> Gt ->
    String.compare s1 s3 <> Gt.
Proof.
  induction s1 as [|c1 s1 IH]; intros [|c2 s2] [|c3 s3]; simpl; try done.
  unfold Ascii.compare.
  destruct (N.compare_spec (N_of_ascii c1) (N_of_ascii c2)) as [H12|H12|H12];
    destruct (N.compare_spec (N_of_ascii c2) (N_of_ascii c3)) as [H23|H23|H23];
    destruct (N.compare_spec (N_of_ascii c1) (N_of_ascii c3)) as [H13|H13|H13];
    try done; try lia.
  apply IH.
Qed.

#[global] Instance str_le_total : Total str_le.
Proof. intros s1 s2. apply String.leb_total. Qed.

#[global] Instance str_le_trans : Transitive str_le.
Proof.
  intros s1 s2 s3. unfold str_le, String.leb.
  pose proof (string_compare_trans s1 s2 s3) as H.
  destruct (String.compare s1 s2), (String.compare s2 s3), (String.compare s1 s3);
    try done; intros _ _; exfalso; by apply H.
Qed.

Lemma str_le_antisym (s1 s2 : string) : str_le s1 s2 -> str_le s2 s1 -> s1 = s2.
Proof. apply String.leb_antisym. Qed.

Lemma sorted_Permutation (l : list string) : sorted l ≡ₚ l.
Proof. apply merge_sort_Permutation. Qed.

Lemma sorted_StronglySorted (l : list string) : StronglySorted str_le (sorted l).
Proof. apply StronglySorted_merge_sort; apply _. Qed.

Lemma occurrences_sorted (w : string) (l : list string) :
  occurrences w (sorted l) = occurrences w l.
Proof. unfold occurrences. by rewrite sorted_Permutation. Qed.

(** The groups of [groupby], put end to end, are the list; each group is
    a run of its value and is not empty; the first group has the first
    element as its value. *)
Lemma groupby_concat (l : list string) : concat (map snd (groupby l)) = l.
Proof.
  induction l as [|x r IH]; [done|]. cbn [groupby].
  destruct (groupby r) as [|[v g] gs].
  - simpl in IH. by subst.
  - destruct (String.eqb x v); simpl in *; by rewrite IH.
Qed.

Lemma groupby_groups (l : list string) :
  Forall (fun '(v, g) => g <> [] /\ Forall (fun x => x = v) g) (groupby l).
Proof.
  induction l as [|x r IH]; [constructor|]. cbn [groupby].
  destruct (groupby r) as [|[v g] gs].
  - repeat constructor. done.
  - destruct (String.eqb_spec x v) as [->|Hne].
    + apply Forall_cons in IH as [[Hg Hv] Hgs].
      constructor; [|done]. split; [done | by constructor].
    + constructor; [|done]. split; [done | by repeat constructor].
Qed.

Lemma groupby_head (x : string) (r : list string) :
  exists g gs, groupby (x :: r) = (x, g) :: gs.
Proof.
  cbn [groupby]. destruct (groupby r) as [|[v g] gs]; [by eexists _, _|].
  destruct (String.eqb_spec x v) as [->|Hne]; by eexists _, _.
Qed.

Lemma groupby_key_elem (l : list string) (v : string) :
  v ∈ map fst (groupby l) -> v ∈ l.
Proof.
  intros Hv. rewrite <- (groupby_concat l).
  pose proof (groupby_groups l) as Hgroups.
  induction (groupby l) as [|[v' g] gs IH]; [by apply elem_of_nil in Hv|].
  apply Forall_cons in Hgroups as [[Hg Hall] Hgs].
  cbn [map fst snd concat]. apply elem_of_app.
  cbn [map fst] in Hv. apply elem_of_cons in Hv as [->|Hv].
  - left. destruct g as [|y g]; [done|].
    apply Forall_cons in Hall as [-> _]. apply elem_of_cons. by left.
  - right. by apply IH.
Qed.

Lemma groupby_NoDup (l : list string) :
  StronglySorted str_le l -> NoDup (map fst (groupby l)).
Proof.
  induction 1 as [|x r Hr IH Hx]; [constructor|].
  cbn [groupby]. destruct (groupby r) as [|[v g] gs] eqn:Hgr.
  - cbn. apply NoDup_singleton.
  - destruct (String.eqb_spec x v) as [->|Hne]; [exact IH|].
    cbn [map fst]. apply NoDup_cons. split; [|exact IH].
    intros Hin. apply Hne.
    assert (x ∈ r) as Hxr by (apply groupby_key_elem; by rewrite Hgr).
    destruct r as [|y r']; [by apply elem_of_nil in Hxr|].
    destruct (groupby_head y r') as (g' & gs' & Hhead).
    rewrite Hhead in Hgr. injection Hgr as -> _ _.
    apply str_le_antisym.
    + apply Forall_cons in Hx as [Hxv _]. exact Hxv.
    + apply elem_of_cons in Hxr as [->|Hxr]; [by destruct (str_le_total v v)|].
      apply StronglySorted_inv in Hr as [_ Hv].
      by eapply Forall_forall in Hv.
Qed.

Lemma elem_of_keys (groups : list (string * list string)) (w : string)
    (g : list string) :
  (w, g) ∈ groups -> w ∈ map fst groups.
Proof.
  induction groups as [|[v g'] gs IH]; [by intros ?%elem_of_nil|].
  cbn [map fst]. rewrite !elem_of_cons. intros [[= -> ->]|Hin]; [by left|].
  right. by apply IH.
Qed.

Lemma occurrences_app (w : string) (l1 l2 : list string) :
  occurrences w (l1 ++ l2) = (occurrences w l1 + occurrences w l2)%nat.
Proof. unfold occurrences. by rewrite filter_app, length_app. Qed.

Lemma occurrences_run (w v : string) (g : list string) :
  Forall (fun x => x = v) g ->
  occurrences w g = if decide (v = w) then length g else 0%nat.
Proof.
  unfold occurrences. induction 1 as [|x g -> _ IH]; [by case_decide|].
  rewrite filter_cons. case_decide; simpl; by rewrite IH.
Qed.

Lemma occurrences_groups (groups : list (string * list string)) (w : string) :
  Forall (fun '(v, g) => g <> [] /\ Forall (fun x => x = v) g) groups ->
  NoDup (map fst groups) ->
  (w ∉ map fst groups -> occurrences w (concat (map snd groups)) = 0%nat)
  /\ (forall g, (w, g) ∈ groups ->
                occurrences w (concat (map snd groups)) = length g).
Proof.
  induction groups as [|[v g] gs IH]; intros Hgroups Hnd.
  - split; [done|]. intros g Hg. by apply elem_of_nil in Hg.
  - apply Forall_cons in Hgroups as [[Hg Hall] Hgs].
    cbn [map fst] in Hnd. apply NoDup_cons in Hnd as [Hv Hnd].
    destruct (IH Hgs Hnd) as [IH0 IH1].
    cbn [map fst snd concat]. rewrite !occurrences_app, (occurrences_run w v g Hall).
    split.
    + intros Hw. rewrite not_elem_of_cons in Hw. destruct Hw as [Hwv Hw].
      rewrite decide_False by done. by rewrite IH0.
    + intros g' [Heq|Hin]%elem_of_cons.
      * injection Heq as -> ->. rewrite decide_True by done.
        rewrite IH0; [lia | done].
      * assert (w ∈ map fst gs) as Hw by (by eapply elem_of_keys).
        rewrite decide_False by (intros ->; done).
        by rewrite (IH1 g' Hin).
Qed.

Lemma update_duplicates_other (groups : list (string * list string)) (w : string) :
  forall duplicates,
    w ∉ map fst groups ->
    update_duplicates groups duplicates !! w = duplicates !! w.
Proof.
  induction groups as [|[v g] gs IH]; intros duplicates Hw; [done|].
  cbn [map fst] in Hw. rewrite not_elem_of_cons in Hw. destruct Hw as [Hwv Hw].
  cbn [update_duplicates]. destruct (1 <? length g)%nat.
  - rewrite IH by done. by rewrite lookup_insert_ne.
  - by apply IH.
Qed.

Lemma update_duplicates_group (groups : list (string * list string))
    (w : string) (g : list string) :
  forall duplicates,
    NoDup (map fst groups) -> (w, g) ∈ groups ->
    update_duplicates groups duplicates !! w
    = if (1 <? length g)%nat then Some (length g) else duplicates !! w.
Proof.
  induction groups as [|[v g'] gs IH]; intros duplicates Hnd Hin.
  - by apply elem_of_nil in Hin.
  - cbn [map fst] in Hnd. apply NoDup_cons in Hnd as [Hv Hnd].
    cbn [update_duplicates]. apply elem_of_cons in Hin as [Heq|Hin].
    + injection Heq as -> ->.
      destruct (1 <? length _)%nat; rewrite update_duplicates_other by done;
        [by rewrite lookup_insert_eq | done].
    + assert (w <> v) as Hne.
      { intros ->. apply Hv. by eapply elem_of_keys. }
      destruct (1 <? length g')%nat; rewrite (IH _ Hnd Hin);
        destruct (1 <? length g)%nat; try done.
      by rewrite lookup_insert_ne.
Qed.

Lemma keys_elem (groups : list (string * list string)) (w : string) :
  w ∈ map fst groups -> exists g, (w, g) ∈ groups.
Proof.
  induction groups as [|[v g'] gs IH]; [by intros ?%elem_of_nil|].
  cbn [map fst]. rewrite elem_of_cons. intros [->|Hin].
  - exists g'. apply elem_of_cons. by left.
  - destruct (IH Hin) as [g Hg]. exists g. apply elem_of_cons. by right.
Qed.

Lemma occurrences_elem (w : string) (l : list string) :
  (0 < occurrences w l)%nat -> w ∈ l.
Proof.
  unfold occurrences. intros Hpos.
  destruct (filter (fun token => token = w) l) as [|x rest] eqn:Hf;
    [simpl in Hpos; lia|].
  assert (x ∈ filter (fun token => token = w) l) as Hx
    by (rewrite Hf; apply elem_of_cons; by left).
  apply list_elem_of_filter in Hx as [-> Hx]. exact Hx.
Qed.

Lemma duplicates_lookup (tokens : list string) (w : string) (n : nat) :
  update_duplicates (groupby (sorted tokens)) ∅ !! w = Some n
  <-> n = occurrences w tokens /\ (1 < n)%nat.
Proof.
  rewrite <- (occurrences_sorted w tokens).
  pose proof (groupby_groups (sorted tokens)) as Hgroups.
  pose proof (groupby_NoDup _ (sorted_StronglySorted tokens)) as Hnd.
  rewrite <- (groupby_concat (sorted tokens)) at 2.
  destruct (occurrences_groups _ w Hgroups Hnd) as [Hout Hin].
  destruct (decide (w ∈ map fst (groupby (sorted tokens)))) as [Hw|Hw].
  - destruct (keys_elem _ _ Hw) as [g Hg].
    rewrite (update_duplicates_group _ w g ∅ Hnd Hg), (Hin g Hg), lookup_empty.
    destruct (1 <? length g)%nat eqn:Hlen.
    + apply Nat.ltb_lt in Hlen. split; [intros [= <-]; by split | by intros [-> _]].
    + apply Nat.ltb_ge in Hlen. split; [done | intros [-> ?]; lia].
  - rewrite update_duplicates_other, lookup_empty, Hout by done.
    split; [done | intros [-> ?]; lia].
Qed.

(** X21. The dictionary of duplicates holds a token exactly when the
    token occurs more than once among the tokens of the lower-cased text,
    and its value is then the number of its occurrences: sorting brings
    the occurrences of a token together, so each token makes one group. *)
Theorem gather_duplicates_lookup
    (word_tokenize : string -> list string) (text w : string) (n : nat) :
  gather_duplicates word_tokenize text !! w = Some n
  <-> n = occurrences w (word_tokenize (lower text)) /\ (1 < n)%nat.
Proof. apply duplicates_lookup. Qed.

(** X22. The duplicates count is the number of distinct tokens that
    occur more than once, not the number of repeated occurrences. *)
Theorem count_duplicates_distinct
    (word_tokenize : string -> list string) (text : string) :
  let tokens := word_tokenize (lower text) in
  count_duplicates word_tokenize text
  = size (list_to_set (C := gset string)
            (filter (fun w => (1 < occurrences w tokens)%nat) tokens)).
Proof.
  cbv zeta. unfold count_duplicates. rewrite <- size_dom. f_equal.
  apply set_eq. intros w.
  rewrite elem_of_dom, elem_of_list_to_set, list_elem_of_filter.
  unfold gather_duplicates. split.
  - intros [n [-> Hn]%duplicates_lookup]. split; [done|].
    apply occurrences_elem. lia.
  - intros [Hn _]. exists (occurrences w (word_tokenize (lower text))).
    by apply duplicates_lookup.
Qed.

(** ** Sentences of a text without a dot *)

(** X23. A text that is not empty and has no dot is one sentence, the
    text itself. *)
Theorem gather_sentences_plain_text (text : string) :
  text <> "" -> str_in "." text = false ->
  gather_sentences text = [text] /\ count_sentences text = 1%nat.
Proof. apply count_sentences_no_dot. Qed.

Lemma gather_sentences_plain_text_hello :
  gather_sentences "Hello world" = ["Hello world"]
  /\ count_sentences "Hello world" = 1%nat.
Proof.
  apply (gather_sentences_plain_text "Hello world"); [discriminate | reflexivity].
Defined.
